(** * Real-estate analysis bot: a shallow embedding of [api/views.py]

    The definitions follow the source file top-down: the price normalizer
    [parse_price], the column detector, the location matcher, the summary
    generator, the dataset loader with its process-wide cache, and the two
    request handlers [upload_file] and [analyze].  The facts proved about
    them come next, and at the end they are evaluated on small tables.

    Modelling conventions.
    - Python exceptions are explicit: a computation returns [Ok v] or
      [Raise e]; [try: ... except: ...] is [try_except].
    - A Python [str] is a Rocq [string]; only the ASCII range carries
      character classes (digit, space, letter case), characters above it
      are opaque symbols.
    - A Python [float] is a [pyfloat]: nan, the two infinities, or the exact
      rational the float denotes.  Binary rounding, overflow to infinity and
      the sign of zero are not modelled.
    - A pandas cell is a [cell]; a DataFrame is its column labels and its
      rows, each row aligned with the labels.  The [year] column is read as
      Int64, which is what the loader leaves there; the [demand] column is
      read as numbers, and a text cell in it raises.
    - [sort_values] is a stable sort.
    - Three library behaviours are parameters: the text Python prints for a
      float, difflib's similarity ratio, pandas' row-wise sum. *)

From Stdlib Require Import String Ascii List ZArith QArith Qround Qabs Lia Bool.
From Stdlib Require Import DecimalString Permutation Sorted.
Import ListNotations.
Local Open Scope string_scope.
Local Open Scope Z_scope.

(** ** Exceptions and results *)

Inductive exn : Type :=
| ValueError | TypeError | KeyError | AttributeError
| ZeroDivisionError | OverflowError.

Inductive result (A : Type) : Type :=
| Ok (a : A)
| Raise (e : exn).
Arguments Ok {A} a.
Arguments Raise {A} e.

Definition bind {A B : Type} (m : result A) (k : A -> result B) : result B :=
  match m with
  | Ok a => k a
  | Raise e => Raise e
  end.

Notation "x <- m ;; k" := (bind m (fun x => k))
  (at level 61, m at next level, right associativity).

(** [try: body except: handler] with a bare [except]. *)
Definition try_except {A : Type} (body handler : result A) : result A :=
  match body with
  | Ok a => Ok a
  | Raise _ => handler
  end.

Fixpoint mapM {A B : Type} (f : A -> result B) (l : list A) : result (list B) :=
  match l with
  | [] => Ok []
  | a :: t => b <- f a ;; bs <- mapM f t ;; Ok (b :: bs)
  end.

(** ** Characters and strings *)

Definition code (c : ascii) : N := N_of_ascii c.

Definition in_range (lo hi : N) (c : ascii) : bool :=
  ((lo <=? code c) && (code c <=? hi))%N.

(** [\d] and [str.isdigit] on the ASCII range. *)
Definition is_digit (c : ascii) : bool := in_range 48 57 c.

(** [str.isspace] on the ASCII range: tab to carriage return, the four
    separators 0x1c-0x1f, and the space. *)
Definition is_space (c : ascii) : bool :=
  in_range 9 13 c || in_range 28 31 c || in_range 32 32 c.

Definition is_upper (c : ascii) : bool := in_range 65 90 c.
Definition is_lower (c : ascii) : bool := in_range 97 122 c.
Definition is_cased (c : ascii) : bool := is_upper c || is_lower c.

Definition to_lower (c : ascii) : ascii :=
  if is_upper c then ascii_of_N (code c + 32) else c.
Definition to_upper (c : ascii) : ascii :=
  if is_lower c then ascii_of_N (code c - 32) else c.

Fixpoint str_map (f : ascii -> ascii) (s : string) : string :=
  match s with
  | EmptyString => EmptyString
  | String c t => String (f c) (str_map f t)
  end.

(** [str.lower()] *)
Definition lower (s : string) : string := str_map to_lower s.

Fixpoint lstrip (s : string) : string :=
  match s with
  | EmptyString => EmptyString
  | String c t => if is_space c then lstrip t else s
  end.

Fixpoint rstrip (s : string) : string :=
  match s with
  | EmptyString => EmptyString
  | String c t =>
      match rstrip t with
      | EmptyString => if is_space c then EmptyString else String c EmptyString
      | t' => String c t'
      end
  end.

(** [str.strip()] *)
Definition strip (s : string) : string := rstrip (lstrip s).

(** [s.replace(a, b)] for one-character [a] and [b]. *)
Definition replace_char (a b : ascii) (s : string) : string :=
  str_map (fun c => if Ascii.eqb c a then b else c) s.

Fixpoint str_all (p : ascii -> bool) (s : string) : bool :=
  match s with
  | EmptyString => true
  | String c t => p c && str_all p t
  end.

Fixpoint str_filter (p : ascii -> bool) (s : string) : string :=
  match s with
  | EmptyString => EmptyString
  | String c t => if p c then String c (str_filter p t) else str_filter p t
  end.

Definition is_empty (s : string) : bool :=
  match s with EmptyString => true | _ => false end.

(** [sub in s] *)
Fixpoint contains (sub s : string) : bool :=
  String.prefix sub s ||
  match s with
  | EmptyString => false
  | String _ t => contains sub t
  end.

Definition has_char (a : ascii) (s : string) : bool :=
  negb (str_all (fun c => negb (Ascii.eqb c a)) s).

(** [s.split(sep)] for a one-character separator: always at least one
    part. *)
Fixpoint split_on (sep : ascii) (s : string) : list string :=
  match s with
  | EmptyString => [EmptyString]
  | String c t =>
      if Ascii.eqb c sep then EmptyString :: split_on sep t
      else match split_on sep t with
           | [] => [String c EmptyString]
           | p :: ps => String c p :: ps
           end
  end.

(** [str.title()]: a cased character is upper-cased when the character
    before it is not cased, lower-cased otherwise. *)
Fixpoint title_from (prev_cased : bool) (s : string) : string :=
  match s with
  | EmptyString => EmptyString
  | String c t =>
      String (if prev_cased then to_lower c else to_upper c)
             (title_from (is_cased c) t)
  end.

Definition title (s : string) : string := title_from false s.

(** [str(n)] for an [int]. *)
Definition str_of_int (z : Z) : string := NilZero.string_of_int (Z.to_int z).

(** ** Floats *)

Inductive pyfloat : Type :=
| FNan
| FInf (negative : bool)
| FFin (q : Q).

Definition q_is_zero (x : Q) : bool := Qnum x =? 0.
Definition q_is_neg (x : Q) : bool := Qnum x <? 0.

Definition float_of_int (z : Z) : pyfloat := FFin (inject_Z z).

Definition fadd (a b : pyfloat) : pyfloat :=
  match a, b with
  | FNan, _ | _, FNan => FNan
  | FInf s, FInf t => if Bool.eqb s t then FInf s else FNan
  | FInf s, FFin _ | FFin _, FInf s => FInf s
  | FFin x, FFin y => FFin (Qred (x + y))
  end.

Definition fneg (a : pyfloat) : pyfloat :=
  match a with
  | FNan => FNan
  | FInf s => FInf (negb s)
  | FFin x => FFin (Qred (- x))
  end.

Definition fsub (a b : pyfloat) : pyfloat := fadd a (fneg b).

Definition fmul (a b : pyfloat) : pyfloat :=
  match a, b with
  | FNan, _ | _, FNan => FNan
  | FInf s, FInf t => FInf (xorb s t)
  | FInf s, FFin y | FFin y, FInf s =>
      if q_is_zero y then FNan else FInf (xorb s (q_is_neg y))
  | FFin x, FFin y => FFin (Qred (x * y))
  end.

(** IEEE division, as numpy performs it: no exception. *)
Definition fdiv (a b : pyfloat) : pyfloat :=
  match a, b with
  | FNan, _ | _, FNan => FNan
  | FInf _, FInf _ => FNan
  | FFin _, FInf _ => FFin 0
  | FInf s, FFin y => FInf (xorb s (q_is_neg y))
  | FFin x, FFin y =>
      if q_is_zero y then
        if q_is_zero x then FNan else FInf (q_is_neg x)
      else FFin (Qred (x / y))
  end.

(** Python's [a / b] on floats: a zero divisor raises before anything else. *)
Definition py_truediv (a b : pyfloat) : result pyfloat :=
  match b with
  | FFin y => if q_is_zero y then Raise ZeroDivisionError else Ok (fdiv a b)
  | _ => Ok (fdiv a b)
  end.

Definition is_nan (a : pyfloat) : bool :=
  match a with FNan => true | _ => false end.

(** [a < b]; false as soon as one side is nan. *)
Definition fltb (a b : pyfloat) : bool :=
  match a, b with
  | FNan, _ | _, FNan => false
  | FInf s, FInf t => s && negb t
  | FInf s, FFin _ => s
  | FFin _, FInf t => negb t
  | FFin x, FFin y => match x ?= y with Lt => true | _ => false end
  end%Q.

(** Python's [sum(parts)]: the start value is the integer 0. *)
Definition py_sum (parts : list pyfloat) : pyfloat :=
  fold_left fadd parts (float_of_int 0).

(** *** [float(s)] for a string

    CPython strips white space, checks and removes digit-group underscores,
    then accepts an optional sign followed by [inf], [infinity], [nan]
    (any case) or a decimal literal with an optional exponent, and rejects
    anything left over. *)

Fixpoint span (p : ascii -> bool) (cs : list ascii) : list ascii * list ascii :=
  match cs with
  | c :: t =>
      if p c then let (a, b) := span p t in (c :: a, b) else ([], cs)
  | [] => ([], [])
  end.

Definition digit_val (c : ascii) : Z := Z.of_N (code c - 48).

Definition digits_val (ds : list ascii) : Z :=
  fold_left (fun acc c => 10 * acc + digit_val c) ds 0.

(** An underscore must stand between two digits; the accepted string is
    returned without its underscores. *)
Fixpoint drop_underscores (prev : option ascii) (cs : list ascii)
  : option (list ascii) :=
  match cs with
  | [] =>
      match prev with
      | Some "_"%char => None
      | _ => Some []
      end
  | c :: t =>
      if Ascii.eqb c "_" then
        match prev with
        | Some p => if is_digit p then drop_underscores (Some c) t else None
        | None => None
        end
      else
        match prev with
        | Some "_"%char =>
            if is_digit c
            then option_map (cons c) (drop_underscores (Some c) t)
            else None
        | _ => option_map (cons c) (drop_underscores (Some c) t)
        end
  end.

Definition take_sign (cs : list ascii) : bool * list ascii :=
  match cs with
  | "-"%char :: t => (true, t)
  | "+"%char :: t => (false, t)
  | _ => (false, cs)
  end.

Definition pow10 (e : Z) : Q :=
  if 0 <=? e then inject_Z (10 ^ e) else Qinv (inject_Z (10 ^ (- e))).

Definition decimal_value (neg : bool) (mantissa e : Z) : Q :=
  Qred ((if neg then inject_Z (- mantissa) else inject_Z mantissa) * pow10 e).

Definition is_exp_mark (c : ascii) : bool :=
  Ascii.eqb c "e" || Ascii.eqb c "E".

(** The literal after white space and underscores are gone. *)
Definition strtod (cs : list ascii) : option pyfloat :=
  let (neg, r) := take_sign cs in
  let word := lower (string_of_list_ascii r) in
  if String.eqb word "inf" || String.eqb word "infinity" then Some (FInf neg)
  else if String.eqb word "nan" then Some FNan
  else
    let (ip, r1) := span is_digit r in
    let (fp, r2) :=
      match r1 with
      | "."%char :: t => span is_digit t
      | _ => ([], r1)
      end in
    match (ip ++ fp)%list with
    | [] => None
    | ds =>
        let frac := Z.of_nat (length fp) in
        match r2 with
        | [] => Some (FFin (decimal_value neg (digits_val ds) (- frac)))
        | c :: t =>
            if is_exp_mark c then
              let (eneg, t1) := take_sign t in
              let (ed, t2) := span is_digit t1 in
              match ed, t2 with
              | _ :: _, [] =>
                  let e := if eneg then - digits_val ed else digits_val ed in
                  Some (FFin (decimal_value neg (digits_val ds) (e - frac)))
              | _, _ => None
              end
            else None
        end
    end.

(** [float(s)]: [None] stands for the [ValueError]. *)
Definition float_of_string (s : string) : option pyfloat :=
  match drop_underscores None (list_ascii_of_string (strip s)) with
  | Some cs => strtod cs
  | None => None
  end.

(** pandas' string-to-number conversion ([pd.to_numeric]): the same
    literal, white space trimmed, no underscores. *)
Definition floatify (s : string) : option pyfloat :=
  strtod (list_ascii_of_string (strip s)).

(** ** Cells *)

Inductive cell : Type :=
| CNone                   (* None, pd.NA *)
| CInt (z : Z)            (* an integer *)
| CNum (f : pyfloat)      (* a float, nan included *)
| CStr (s : string).      (* text *)

(** [pd.isna] *)
Definition isna (c : cell) : bool :=
  match c with
  | CNone | CNum FNan => true
  | _ => false
  end.

(** [float(value)] *)
Definition py_float (value : cell) : result pyfloat :=
  match value with
  | CNone => Raise TypeError
  | CInt z => Ok (float_of_int z)
  | CNum f => Ok f
  | CStr s =>
      match float_of_string s with
      | Some f => Ok f
      | None => Raise ValueError
      end
  end.

Definition hyphen : ascii := "-"%char.

(** [re.sub(r"[^\d.]", "", s)] *)
Definition keep_digits_and_dots (s : string) : string :=
  str_filter (fun c => is_digit c || Ascii.eqb c ".") s.

(** ** Dictionaries

    A Python [dict] keeps insertion order: assigning to a key that is
    present replaces its value in place, a new key goes to the end. *)

Section Dict.
Context {K V : Type} (eqb : K -> K -> bool).

Fixpoint dict_get (k : K) (d : list (K * V)) : option V :=
  match d with
  | [] => None
  | (k', v) :: t => if eqb k' k then Some v else dict_get k t
  end.

Fixpoint dict_set (k : K) (v : V) (d : list (K * V)) : list (K * V) :=
  match d with
  | [] => [(k, v)]
  | (k', v') :: t =>
      if eqb k' k then (k, v) :: t else (k', v') :: dict_set k v t
  end.

Definition dict_mem (k : K) (d : list (K * V)) : bool :=
  match dict_get k d with Some _ => true | None => false end.

Definition dict_values (d : list (K * V)) : list V := map snd d.
Definition dict_keys (d : list (K * V)) : list K := map fst d.
End Dict.

(** A JSON object with scalar values: a chart record or a table record. *)
Definition record : Type := list (string * cell).

Definition rec_get (k : string) (r : record) : option cell :=
  dict_get String.eqb k r.
Definition rec_set (k : string) (v : cell) (r : record) : record :=
  dict_set String.eqb k v r.

(** [year_map]: year -> chart record. *)
Definition year_map : Type := list (Z * record).

(** ** DataFrames *)

Definition row : Type := list cell.

Record dataframe : Type := mkDF {
  columns : list string;
  rows : list row
}.

Fixpoint index_of (name : string) (cols : list string) : option nat :=
  match cols with
  | [] => None
  | c :: t =>
      if String.eqb c name then Some O else option_map S (index_of name t)
  end.

Definition count_label (name : string) (cols : list string) : nat :=
  length (filter (String.eqb name) cols).

(** The position of the column [df[name]].  A missing label is pandas'
    [KeyError]; under a repeated label [df[name]] is a frame, not a column,
    and the column operations applied to it in [views.py] raise. *)
Definition col_index (name : string) (df : dataframe) : result nat :=
  match index_of name (columns df) with
  | Some i =>
      if Nat.eqb (count_label name (columns df)) 1 then Ok i
      else Raise AttributeError
  | None => Raise KeyError
  end.

Definition cell_at (i : nat) (r : row) : cell := nth i r CNone.

(** A cell of the [year] column, whose dtype is Int64 (loader, line 99):
    an integer or <NA>. *)
Definition year_at (iy : nat) (r : row) : option Z :=
  match cell_at iy r with
  | CInt z => Some z
  | _ => None
  end.

(** [series > bound] on an Int64 column, used as a mask: <NA> selects
    nothing. *)
Definition year_gt (iy : nat) (bound : Z) (r : row) : bool :=
  match year_at iy r with
  | Some y => bound <? y
  | None => false
  end.

(** One step of the running maximum; <NA> is skipped. *)
Definition max_step (iy : nat) (acc : option Z) (r : row) : option Z :=
  match year_at iy r, acc with
  | Some y, Some m => Some (Z.max m y)
  | Some y, None => Some y
  | None, _ => acc
  end.

(** [series.max()] on an Int64 column: <NA> when no value is present. *)
Definition max_year_of (iy : nat) (rs : list row) : option Z :=
  fold_left (max_step iy) rs None.

(** [int(series.max())]: [int(pd.NA)] is a [TypeError]. *)
Definition int_of_max (m : option Z) : result Z :=
  match m with
  | Some y => Ok y
  | None => Raise TypeError
  end.

(** The order of [sort_values("year")]: ascending, <NA> last. *)
Definition year_le (a b : option Z) : bool :=
  match a, b with
  | Some x, Some y => x <=? y
  | Some _, None => true
  | None, Some _ => false
  | None, None => true
  end.

Fixpoint insert_by {A : Type} (le : A -> A -> bool) (x : A) (l : list A)
  : list A :=
  match l with
  | [] => [x]
  | y :: t => if le x y then x :: l else y :: insert_by le x t
  end.

(** A stable sort.  pandas sorts with numpy's quicksort, which may order
    rows of one year differently; nothing proved below depends on the
    order inside a year. *)
Definition sort_by {A : Type} (le : A -> A -> bool) (l : list A) : list A :=
  fold_right (insert_by le) [] l.

Definition sort_values_year (iy : nat) (rs : list row) : list row :=
  sort_by (fun a b => year_le (year_at iy a) (year_at iy b)) rs.

(** The keys of [groupby("year")]: the distinct years present, ascending;
    <NA> is no key. *)
Fixpoint insert_key (y : Z) (ks : list Z) : list Z :=
  match ks with
  | [] => [y]
  | k :: t =>
      if y <? k then y :: ks
      else if y =? k then ks
      else k :: insert_key y t
  end.

Fixpoint group_keys (iy : nat) (rs : list row) : list Z :=
  match rs with
  | [] => []
  | r :: t =>
      match year_at iy r with
      | Some y => insert_key y (group_keys iy t)
      | None => group_keys iy t
      end
  end.

Definition has_year (iy : nat) (y : Z) (r : row) : bool :=
  match year_at iy r with
  | Some z => z =? y
  | None => false
  end.

(** [for year, group in area.groupby("year")] *)
Definition groupby_year (iy : nat) (rs : list row) : list (Z * list row) :=
  map (fun y => (y, filter (has_year iy y) rs)) (group_keys iy rs).

(** A numeric cell as a float; text has no numeric reading (the model
    takes the [demand] column to be numeric, as the loader derives it). *)
Definition numeric (c : cell) : result pyfloat :=
  match c with
  | CNone => Ok FNan
  | CInt z => Ok (float_of_int z)
  | CNum f => Ok f
  | CStr _ => Raise TypeError
  end.

(** [series.sum()]: missing values are skipped. *)
Definition series_sum (cs : list cell) : result pyfloat :=
  vs <- mapM numeric cs ;;
  Ok (fold_left fadd (filter (fun v => negb (is_nan v)) vs) (float_of_int 0)).

(** [int(x)] for a float: truncation toward zero. *)
Definition py_int (x : pyfloat) : result Z :=
  match x with
  | FNan => Raise ValueError
  | FInf _ => Raise OverflowError
  | FFin q => Ok (Z.quot (Qnum q) (Zpos (Qden q)))
  end.

(** [pd.to_numeric(x, errors="coerce")] cell by cell. *)
Definition to_numeric (c : cell) : pyfloat :=
  match c with
  | CNone => FNan
  | CInt z => float_of_int z
  | CNum f => f
  | CStr s =>
      match floatify s with
      | Some f => f
      | None => FNan
      end
  end.

(** [mean()] with missing values skipped; nan when nothing is left. *)
Definition nanmean (vs : list pyfloat) : pyfloat :=
  let present := filter (fun v => negb (is_nan v)) vs in
  match present with
  | [] => FNan
  | _ => fdiv (fold_left fadd present (float_of_int 0))
              (float_of_int (Z.of_nat (length present)))
  end.

(** Round half to even. *)
Definition round_half_even (q : Q) : Z :=
  let f := Qfloor q in
  match Qcompare (q - inject_Z f) (1 # 2) with
  | Lt => f
  | Gt => f + 1
  | Eq => if Z.even f then f else f + 1
  end.

(** [round(x, 2)] *)
Definition py_round2 (x : pyfloat) : pyfloat :=
  match x with
  | FFin q => FFin (Qred (inject_Z (round_half_even (q * 100)) / 100))
  | _ => x
  end.

(** [f"{x:.1f}"] *)
Definition format_1f (x : pyfloat) : string :=
  match x with
  | FNan => "nan"
  | FInf s => if s then "-inf" else "inf"
  | FFin q =>
      let n := round_half_even (Qabs q * 10) in
      (if q_is_neg q then "-" else "")
        ++ str_of_int (n / 10) ++ "." ++ str_of_int (n mod 10)
  end.

(** ** Requests, responses and the process state *)

(** One entry of the [summary] list. *)
Record summary_entry : Type := mkSummary {
  location : string;
  mockSummary : string
}.

Inductive body : Type :=
| ErrorBody (error : string)                 (* {"error": ...} *)
| MessageBody (message : string)             (* {"message": ...} *)
| SummaryText (summary : string)             (* {"summary": "..."} *)
| Analysis (summary : list summary_entry)
           (chartData : list record)
           (tableData : list record).

Record response : Type := mkResponse {
  content : body;
  status : Z
}.

(** What [pd.read_excel] returns: column labels as read (text or numbers)
    and the rows below them. *)
Record sheet : Type := mkSheet {
  labels : list cell;
  cells : list row
}.

(** An uploaded file: its name and what parsing its bytes gives;
    [None] when [pd.read_excel] raises. *)
Record upload : Type := mkUpload {
  name : string;
  workbook : option sheet
}.

(** The module state: [_cached_df], the one-entry [lru_cache] of
    [load_dataframe] ([None]: nothing memoized), and the file
    [real_estate.xlsx] under the base directory ([None]: absent;
    [Some None]: present but unreadable). *)
Record state : Type := mkState {
  cached_df : option dataframe;
  memo : option (option dataframe);
  excel_file : option (option sheet)
}.

Inductive query_type : Type := demand_trends | price_growth | analysis.

Definition wants_demand (qt : query_type) : bool :=
  match qt with analysis | demand_trends => true | price_growth => false end.
Definition wants_price (qt : query_type) : bool :=
  match qt with analysis | price_growth => true | demand_trends => false end.

(** [if last_n:] -- [None] and [0] are both false. *)
Definition truthy (last_n : option Z) : bool :=
  match last_n with
  | Some n => negb (n =? 0)
  | None => false
  end.

(** *** [re.search(r"last\s+(\d+)\s+years", query)]

    The three repetitions are over disjoint character classes, each
    followed by a character outside its class, so the greedy match is the
    only one at a given start. *)

Fixpoint drop_prefix (p cs : list ascii) : option (list ascii) :=
  match p, cs with
  | [], _ => Some cs
  | a :: p', c :: cs' => if Ascii.eqb a c then drop_prefix p' cs' else None
  | _ :: _, [] => None
  end.

Definition match_window_at (cs : list ascii) : option (list ascii) :=
  match drop_prefix (list_ascii_of_string "last") cs with
  | None => None
  | Some r =>
      let (w1, r1) := span is_space r in
      let (ds, r2) := span is_digit r1 in
      let (w2, r3) := span is_space r2 in
      match w1, ds, w2, drop_prefix (list_ascii_of_string "years") r3 with
      | _ :: _, _ :: _, _ :: _, Some _ => Some ds
      | _, _, _, _ => None
      end
  end.

Fixpoint search_window (cs : list ascii) : option (list ascii) :=
  match match_window_at cs with
  | Some ds => Some ds
  | None =>
      match cs with
      | [] => None
      | _ :: t => search_window t
      end
  end.

(** [int(m.group(1)) if m else None] *)
Definition extract_last_n (query : string) : option Z :=
  option_map digits_val (search_window (list_ascii_of_string query)).

Definition classify (query : string) : query_type :=
  if contains "compare" query && contains "demand" query then demand_trends
  else if contains "price growth" query then price_growth
  else analysis.

Fixpoint foldM {A B : Type} (f : A -> B -> result A) (l : list B) (a : A)
  : result A :=
  match l with
  | [] => Ok a
  | b :: t => a' <- f a b ;; foldM f t a'
  end.

(** [s.endswith(suffix)] *)
Fixpoint ends_with (suffix s : string) : bool :=
  String.eqb suffix s ||
  match s with
  | EmptyString => false
  | String _ t => ends_with suffix t
  end.

(** [series == loc] for a text [loc], cell by cell. *)
Definition cell_is (loc : string) (c : cell) : bool :=
  match c with
  | CStr s => String.eqb s loc
  | _ => false
  end.

Definition pyfloat_eqb (a b : pyfloat) : bool :=
  match a, b with
  | FInf s, FInf t => Bool.eqb s t
  | FFin x, FFin y => Qeq_bool x y
  | _, _ => false
  end.

(** [==] on cells, as [unique()] compares them. *)
Definition cell_eqb (a b : cell) : bool :=
  match a, b with
  | CNone, CNone => true
  | CInt x, CInt y => x =? y
  | CNum f, CNum g => pyfloat_eqb f g
  | CInt x, CNum g | CNum g, CInt x => pyfloat_eqb (float_of_int x) g
  | CStr s, CStr u => String.eqb s u
  | _, _ => false
  end.

(** [series.unique()]: first occurrences, in order. *)
Fixpoint unique_from (seen cs : list cell) : list cell :=
  match cs with
  | [] => []
  | c :: t =>
      if existsb (cell_eqb c) seen then unique_from seen t
      else c :: unique_from (c :: seen) t
  end.

Definition unique (cs : list cell) : list cell := unique_from [] cs.

(** [year_map[year][key] = v] *)
Definition set_field (year : Z) (key : string) (v : cell) (ym : year_map)
  : result year_map :=
  match dict_get Z.eqb year ym with
  | Some r => Ok (dict_set Z.eqb year (rec_set key v r) ym)
  | None => Raise KeyError
  end.

(** [sorted(records, key=lambda x: x["year"])]: the keys are read once,
    the sort is stable. *)
Definition keyed_by_year (r : record) : result (Z * record) :=
  match rec_get "year" r with
  | Some (CInt y) => Ok (y, r)
  | Some _ => Raise TypeError
  | None => Raise KeyError
  end.

Definition sorted_by_year (rs : list record) : result (list record) :=
  keyed <- mapM keyed_by_year rs ;;
  Ok (map snd (sort_by (fun a b => fst a <=? fst b) keyed)).

(** ** The loader's invariant *)

Definition head_ok (s : string) : bool :=
  match s with
  | EmptyString => true
  | String c _ => negb (is_space c)
  end.

Fixpoint last_ok (s : string) : bool :=
  match s with
  | EmptyString => true
  | String c EmptyString => negb (is_space c)
  | String _ t => last_ok t
  end.

(** A column label as the loader leaves it: trimmed, lower-case, without
    space or hyphen. *)
Definition label_ok (s : string) : Prop :=
  strip s = s /\ lower s = s
  /\ has_char " " s = false /\ has_char "-" s = false.

(** A [final_location] value as the loader leaves it. *)
Definition location_ok (c : cell) : Prop :=
  exists s, c = CStr s /\ lower s = s /\ strip s = s.

(** A [year] value as the loader leaves it: an Int64, possibly <NA>. *)
Definition int64_cell (c : cell) : Prop :=
  c = CNone \/ exists z, c = CInt z.

Definition table_ok (df : dataframe) : Prop :=
  Forall label_ok (columns df)
  /\ (forall i, index_of "final_location" (columns df) = Some i ->
        Forall (fun r => location_ok (cell_at i r)) (rows df))
  /\ (forall i, index_of "year" (columns df) = Some i ->
        Forall (fun r => int64_cell (cell_at i r)) (rows df)).

(** Every table the module holds -- cached or memoized -- is normalized. *)
Definition state_ok (st : state) : Prop :=
  (forall df, cached_df st = Some df -> table_ok df)
  /\ (forall df, memo st = Some (Some df) -> table_ok df).

(** ** The window in the spec's words *)

(** A row whose year is strictly greater than the maximum year minus N. *)
Definition in_window (iy : nat) (max_year n : Z) (r : row) : Prop :=
  exists y, year_at iy r = Some y /\ max_year - n < y.

(** [m] is the maximum year of the rows [rs]. *)
Definition is_max_year (iy : nat) (rs : list row) (m : Z) : Prop :=
  (exists r, In r rs /\ year_at iy r = Some m)
  /\ forall r y, In r rs -> year_at iy r = Some y -> y <= m.

(** [df[df["final_location"] == loc]] *)
Definition rows_of_location (df : dataframe) (iloc : nat) (loc : string)
  : list row :=
  filter (fun r => cell_is loc (cell_at iloc r)) (rows df).

(** ** Chart records in the spec's words *)

(** Some row of the area carries the year [y]. *)
Definition has_rows_in (iy : nat) (area : dataframe) (y : Z) : Prop :=
  exists r, In r (rows area) /\ year_at iy r = Some y.

(** The rows of the area for the year [y]: one group of
    [groupby("year")]. *)
Definition year_group (iy : nat) (area : dataframe) (y : Z) : list row :=
  filter (has_year iy y) (rows area).

(** The mean of one price column over a group, missing values skipped. *)
Definition column_mean (g : list row) (i : nat) : pyfloat :=
  nanmean (map (fun r => to_numeric (cell_at i r)) g).

(** What the code computes: the mean of the per-column means. *)
Definition mean_of_column_means (idxs : list nat) (g : list row) : pyfloat :=
  nanmean (map (column_mean g) idxs).


(** The record of the chart series for the year [y]. *)
Definition chart_record (chart : list record) (y : Z) (rec : record) : Prop :=
  In rec chart /\ rec_get "year" rec = Some (CInt y).

(** ** Sample data

    Small tables and states on which the handlers are evaluated below. *)

Definition sample_repr (f : pyfloat) : string := "0.0".
Definition sample_ratio (a b : string) : Q := 0%Q.
Definition sample_row_sum (cs : list cell) : result cell :=
  total <- series_sum cs ;; Ok (CNum total).

Definition empty_state : state := mkState None None None.

(** One location whose first price is 0. *)
Definition zero_price_table : dataframe :=
  mkDF ["final_location"; "year"; "demand"; "rate"]
       [[CStr "pune"; CInt 2020; CInt 3; CInt 0];
        [CStr "pune"; CInt 2021; CInt 4; CInt 5000]].

Definition zero_price_state : state :=
  mkState (Some zero_price_table) None None.

(** One location without any year. *)
Definition no_year_table : dataframe :=
  mkDF ["final_location"; "year"; "demand"; "rate"]
       [[CStr "pune"; CNone; CInt 3; CInt 4000]].

Definition no_year_state : state := mkState (Some no_year_table) None None.

(** A table without a [year] column. *)
Definition yearless_table : dataframe :=
  mkDF ["final_location"; "demand"; "rate"]
       [[CStr "pune"; CInt 3; CInt 4000]].

(** Two locations over the years 2020-2021 and 2021-2022; two price
    columns, one cell of which is empty and one a range. *)
Definition two_city_table : dataframe :=
  mkDF ["final_location"; "year"; "demand"; "rate"; "price_b"]
       [[CStr "pune"; CInt 2020; CInt 5; CNum (FFin 10); CNum FNan];
        [CStr "pune"; CInt 2020; CNum (FFin (5 # 2)); CNum (FFin 20);
         CNum (FFin 40)];
        [CStr "pune"; CInt 2021; CInt 7; CStr "1200-1500"; CStr "30"];
        [CStr "mumbai"; CInt 2022; CInt 1; CNum (FFin 1); CNum (FFin 3)];
        [CStr "mumbai"; CInt 2021; CInt 2; CNum (FFin 2); CNum (FFin 4)]].

Definition two_city_state : state := mkState (Some two_city_table) None None.

Definition sample_sheet : sheet :=
  mkSheet [CStr " Final Location "; CStr "Year"; CStr "Flats-Sold IGR";
           CStr "Rate"]
          [[CStr " Pune "; CStr "2020"; CInt 3; CInt 4000];
           [CStr "MUMBAI"; CNum (FFin 2021); CInt 3]].

Definition good_upload : upload := mkUpload "data.xlsx" (Some sample_sheet).
Definition broken_upload : upload := mkUpload "data.xlsx" None.

(** The rows of [pune] in [two_city_table], sorted, and the answer to
    the query "pune and mumbai" on that table. *)
Definition pune_area : dataframe :=
  mkDF ["final_location"; "year"; "demand"; "rate"; "price_b"]
       [[CStr "pune"; CInt 2020; CInt 5; CNum (FFin 10); CNum FNan];
        [CStr "pune"; CInt 2020; CNum (FFin (5 # 2)); CNum (FFin 20);
         CNum (FFin 40)];
        [CStr "pune"; CInt 2021; CInt 7; CStr "1200-1500"; CStr "30"]].

Definition two_city_summaries : list summary_entry :=
  [mkSummary "Pune"
     "Pune has shown 200.0% average change over period in prices, with demand rising over the past all years.";
   mkSummary "Mumbai"
     "Mumbai has shown 50.0% average change over period in prices, with demand falling over the past all years."].

Definition two_city_chart : list record :=
  [[("year", CInt 2020); ("Pune", CInt 7);
    ("Pune_price", CNum (FFin (55 # 2)))];
   [("year", CInt 2021); ("Pune", CInt 7); ("Pune_price", CNum (FFin 30));
    ("Mumbai", CInt 2); ("Mumbai_price", CNum (FFin 3))];
   [("year", CInt 2022); ("Mumbai", CInt 1);
    ("Mumbai_price", CNum (FFin 2))]].

Definition two_city_rows : list record :=
  [[("final_location", CStr "pune"); ("year", CInt 2020); ("demand", CInt 5);
    ("rate", CNum (FFin 10)); ("price_b", CNum FNan)];
   [("final_location", CStr "pune"); ("year", CInt 2020);
    ("demand", CNum (FFin (5 # 2))); ("rate", CNum (FFin 20));
    ("price_b", CNum (FFin 40))];
   [("final_location", CStr "pune"); ("year", CInt 2021); ("demand", CInt 7);
    ("rate", CStr "1200-1500"); ("price_b", CStr "30")];
   [("final_location", CStr "mumbai"); ("year", CInt 2021); ("demand", CInt 2);
    ("rate", CNum (FFin 2)); ("price_b", CNum (FFin 4))];
   [("final_location", CStr "mumbai"); ("year", CInt 2022); ("demand", CInt 1);
    ("rate", CNum (FFin 1)); ("price_b", CNum (FFin 3))]].

Definition two_city_query : option string := Some "pune and mumbai".

(** [sample_sheet] after the loader's normalization. *)
Definition sample_table : dataframe :=
  mkDF ["final_location"; "year"; "flats_sold_igr"; "rate"; "demand"]
       [[CStr "pune"; CInt 2020; CInt 3; CInt 4000; CNum (FFin 3)];
        [CStr "mumbai"; CInt 2021; CInt 3; CNum FNan; CNum (FFin 3)]].

(** ** The views

    Three library behaviours stay abstract: how Python prints a float,
    difflib's similarity ratio, and pandas' row-wise sum. *)

Section Views.

Set Default Proof Using "Type".

(** [str(x)] for a float [x]. *)
Variable float_repr : pyfloat -> string.

(** [difflib.SequenceMatcher(None, a, b).ratio()] *)
Variable ratio : string -> string -> Q.

(** One row of [DataFrame.sum(axis=1)]: the cells of the selected columns
    to their sum, or an exception. *)
Variable row_sum : list cell -> result cell.

(** [str(value)] *)
Definition py_str (value : cell) : string :=
  match value with
  | CNone => "None"
  | CInt z => str_of_int z
  | CNum f => float_repr f
  | CStr s => s
  end.

(** Lines 28-32: drop every character that is no digit and no dot, then
    convert. *)
Definition strip_and_convert (s : string) : result (option pyfloat) :=
  let s := keep_digits_and_dots s in
  try_except (f <- py_float (CStr s) ;; Ok (Some f)) (Ok None).

(** [parse_price], lines 15-32. *)
Definition parse_price (value : cell) : result (option pyfloat) :=
  match value with
  | CNone => Ok None
  | _ =>
      try_except
        (f <- py_float value ;; Ok (Some f))
        (let s := py_str value in
         if contains "-" s then
           try_except
             (parts <- mapM (fun x => py_float (CStr x)) (split_on hyphen s) ;;
              m <- py_truediv (py_sum parts)
                     (float_of_int (Z.of_nat (length parts))) ;;
              Ok (Some m))
             (Ok None)
         else strip_and_convert s)
  end.


Definition price_words : list string := ["rate"; "price"; "prevailing"].

(** [detect_price_cols], lines 34-38. *)
Definition detect_price_cols (df : dataframe) : list string :=
  filter (fun col => existsb (fun x => contains x (lower col)) price_words)
         (columns df).

(** [(ratio x, x) > (ratio y, y)], the order [heapq.nlargest] uses. *)
Definition scores_above (word x y : string) : bool :=
  match Qcompare (ratio x word) (ratio y word) with
  | Gt => true
  | Lt => false
  | Eq => String.ltb y x
  end.

(** [difflib.get_close_matches(word, possibilities, n=1, cutoff)]: the
    best-scoring candidate among those whose ratio reaches the cutoff. *)
Definition get_close_matches (word : string) (possibilities : list string)
  (cutoff : Q) : list string :=
  match filter (fun x => Qle_bool cutoff (ratio x word)) possibilities with
  | [] => []
  | x :: t =>
      [fold_left (fun best y => if scores_above word y best then y else best)
                 t x]
  end.

(** [fuzzy_match_location], lines 40-42. *)
Definition fuzzy_match_location (query_loc : string) (locations : list string)
  (threshold : Q) : option string :=
  match get_close_matches query_loc locations threshold with
  | m :: _ => Some m
  | [] => None
  end.

Definition default_threshold : Q := 8 # 10.

(** [loc in query or fuzzy_match_location(query, [loc])] as a condition:
    a returned match counts unless it is the empty string. *)
Definition mentioned (query loc : string) : bool :=
  contains loc query ||
  match fuzzy_match_location query [loc] default_threshold with
  | Some m => negb (is_empty m)
  | None => false
  end.

(** [area.sort_values("year")] *)
Definition sort_values (area : dataframe) : result dataframe :=
  iy <- col_index "year" area ;;
  Ok (mkDF (columns area) (sort_values_year iy (rows area))).

(** The window, written twice in the source (lines 46-48 and 183-185):
    [if last_n: max_year = int(area["year"].max());
     area = area[area["year"] > max_year - last_n]]. *)
Definition apply_window (last_n : option Z) (area : dataframe)
  : result dataframe :=
  match last_n with
  | Some n =>
      if n =? 0 then Ok area
      else
        iy <- col_index "year" area ;;
        max_year <- int_of_max (max_year_of iy (rows area)) ;;
        Ok (mkDF (columns area)
                 (filter (year_gt iy (max_year - n)) (rows area)))
  | None => Ok area
  end.

(** [series.dropna()] on raw cells, and on the results of [parse_price]. *)
Definition dropna (cs : list cell) : list cell :=
  filter (fun c => negb (isna c)) cs.

Definition dropna_floats (os : list (option pyfloat)) : list pyfloat :=
  flat_map (fun o =>
              match o with
              | Some f => if is_nan f then [] else [f]
              | None => []
              end) os.

(** [area[col].dropna().map(parse_price).dropna().tolist()] *)
Definition column_prices (area : dataframe) (col : string)
  : result (list pyfloat) :=
  i <- col_index col area ;;
  ps <- mapM parse_price (dropna (map (cell_at i) (rows area))) ;;
  Ok (dropna_floats ps).

(** Lines 57-65. *)
Definition demand_trend_of (demand_vals : list cell) : result string :=
  match demand_vals with
  | [] => Ok ""
  | [_] => Ok "steady"
  | first :: _ =>
      a <- numeric first ;;
      b <- numeric (last demand_vals first) ;;
      Ok (if fltb a b then "rising"
          else if fltb b a then "falling"
          else "stable")
  end.

(** Lines 67-71. *)
Definition price_trend_of (avg_price_vals : list pyfloat) : result string :=
  match avg_price_vals with
  | [] => Ok "No price data available"
  | first :: _ =>
      d <- py_truediv (fsub (last avg_price_vals first) first) first ;;
      Ok (format_1f (fmul d (float_of_int 100))
            ++ "% average change over period")
  end.

(** Lines 50-76 of [generate_mock_summary]: what follows the sort and the
    window. *)
Definition summary_body (area : dataframe) (price_cols : list string)
  (location_name : string) (last_n : option Z) : result string :=
  idem <- col_index "demand" area ;;
  let demand_vals := dropna (map (cell_at idem) (rows area)) in
  per_col <- mapM (column_prices area) price_cols ;;
  let avg_price_vals := List.concat per_col in
  demand_trend <- demand_trend_of demand_vals ;;
  price_trend <- price_trend_of avg_price_vals ;;
  Ok (title location_name ++ " has shown " ++ price_trend
        ++ " in prices, with demand " ++ demand_trend
        ++ " over the past "
        ++ (match last_n with
            | Some n => if n =? 0 then "all" else str_of_int n
            | None => "all"
            end)
        ++ " years.").

(** [generate_mock_summary], lines 44-76. *)
Definition generate_mock_summary (area : dataframe) (price_cols : list string)
  (location_name : string) (last_n : option Z) : result string :=
  area <- sort_values area ;;
  area <- apply_window last_n area ;;
  summary_body area price_cols location_name last_n.

(** *** The loader's normalization, lines 90-103 and 125-138 (the two
    copies are the same statements). *)

(** Lines 90-93: [astype(str)], [strip], [lower], then the two
    replacements. *)
Definition normalize_label (c : cell) : string :=
  replace_char "-" "_" (replace_char " " "_" (lower (strip (py_str c)))).

Fixpoint set_nth (i : nat) (f : cell -> cell) (r : row) : row :=
  match i, r with
  | _, [] => []
  | O, c :: t => f c :: t
  | S j, c :: t => c :: set_nth j f t
  end.

(** A row as wide as the header: [read_excel] yields a rectangular
    frame, empty cells read as nan. *)
Fixpoint fit (n : nat) (r : row) : row :=
  match n, r with
  | O, _ => []
  | S m, [] => CNum FNan :: fit m []
  | S m, c :: t => c :: fit m t
  end.

(** Line 96: [astype(str).str.lower().str.strip()] on one cell. *)
Definition normalize_location (c : cell) : cell :=
  CStr (strip (lower (py_str c))).

(** Line 99: [pd.to_numeric(..., errors="coerce").astype("Int64")] on one
    cell; a float that is no integer cannot be cast. *)
Definition to_int64 (c : cell) : result cell :=
  match to_numeric c with
  | FNan => Ok CNone
  | FInf _ => Raise TypeError
  | FFin q =>
      let r := Qred q in
      if Zpos (Qden r) =? 1 then Ok (CInt (Qnum r)) else Raise TypeError
  end.

(** [col in df.columns], then an operation on [df[col]] written back. *)
Definition on_column (label : string) (f : list row -> nat -> result (list row))
  (df : dataframe) : result dataframe :=
  if existsb (String.eqb label) (columns df) then
    i <- col_index label df ;;
    rs <- f (rows df) i ;;
    Ok (mkDF (columns df) rs)
  else Ok df.

Definition set_column_total (f : cell -> cell) (rs : list row) (i : nat)
  : result (list row) :=
  Ok (map (set_nth i f) rs).

Fixpoint set_nthM (i : nat) (f : cell -> result cell) (r : row) : result row :=
  match i, r with
  | _, [] => Ok []
  | O, c :: t => c' <- f c ;; Ok (c' :: t)
  | S j, c :: t => t' <- set_nthM j f t ;; Ok (c :: t')
  end.

Definition set_column (f : cell -> result cell) (rs : list row) (i : nat)
  : result (list row) :=
  mapM (set_nthM i f) rs.

Definition is_sold_col (c : string) : bool :=
  contains "sold" c && contains "igr" c.

(** The cells of a row under the labels selected by [p]. *)
Fixpoint select_cells (p : string -> bool) (cols : list string) (r : row)
  : list cell :=
  match cols, r with
  | c :: cs, v :: vs =>
      if p c then v :: select_cells p cs vs else select_cells p cs vs
  | _, _ => []
  end.

(** Lines 101-103. *)
Definition derive_demand (df : dataframe) : result dataframe :=
  let sold_cols := filter is_sold_col (columns df) in
  if existsb (String.eqb "demand") (columns df) then Ok df
  else
    rs <- mapM (fun r =>
                  v <- (match sold_cols with
                        | [] => Ok (CInt 0)
                        | _ => row_sum (select_cells is_sold_col (columns df) r)
                        end) ;;
                  Ok (r ++ [v])%list)
               (rows df) ;;
    Ok (mkDF (columns df ++ ["demand"])%list rs).

(** Everything between [pd.read_excel] and the assignment to
    [_cached_df]. *)
Definition normalize (raw : sheet) : result dataframe :=
  let cols := map normalize_label (labels raw) in
  let df := mkDF cols (map (fit (length cols)) (cells raw)) in
  df <- on_column "final_location" (set_column_total normalize_location) df ;;
  df <- on_column "year" (set_column to_int64) df ;;
  derive_demand df.

(** [pd.read_excel(...)] followed by the normalization. *)
Definition read_and_normalize (parsed : option sheet) : result dataframe :=
  match parsed with
  | Some raw => normalize raw
  | None => Raise ValueError
  end.

(** The body of [load_dataframe], lines 80-109. *)
Definition load_body (st : state) : option dataframe * state :=
  match cached_df st with
  | Some df => (Some df, st)
  | None =>
      match excel_file st with
      | None => (None, st)
      | Some parsed =>
          match read_and_normalize parsed with
          | Ok df => (Some df, mkState (Some df) (memo st) (excel_file st))
          | Raise _ => (None, st)
          end
      end
  end.

(** [load_dataframe] under [@lru_cache(maxsize=1)]: a memoized result is
    returned without running the body. *)
Definition load_dataframe (st : state) : option dataframe * state :=
  match memo st with
  | Some r => (r, st)
  | None =>
      let (r, st') := load_body st in
      (r, mkState (cached_df st') (Some r) (excel_file st'))
  end.

(** [name.endswith(('.xlsx', '.xls'))] *)
Definition accepted_name (n : string) : bool :=
  ends_with ".xlsx" n || ends_with ".xls" n.

(** [upload_file], lines 113-144; [None] is a request without a file. *)
Definition upload_file (st : state) (uploaded_file : option upload)
  : response * state :=
  match uploaded_file with
  | None => (mkResponse (ErrorBody "No file provided.") 400, st)
  | Some f =>
      if negb (accepted_name (name f))
      then (mkResponse (ErrorBody "Invalid file format.") 400, st)
      else
        match read_and_normalize (workbook f) with
        | Ok df =>
            (mkResponse (MessageBody "File uploaded successfully.") 200,
             mkState (Some df) None (excel_file st))
        | Raise _ =>
            (mkResponse (ErrorBody "Failed to process file.") 500, st)
        end
  end.

(** [found_locs], lines 162-165; [loc in query] needs a text [loc]. *)
Fixpoint find_locs (query : string) (locations : list cell)
  : result (list string) :=
  match locations with
  | [] => Ok []
  | CStr loc :: t =>
      if mentioned query loc
      then rest <- find_locs query t ;; Ok (loc :: rest)
      else find_locs query t
  | _ :: _ => Raise TypeError
  end.

(** Lines 182-187: the rows of one location, windowed, then sorted. *)
Definition location_area (df : dataframe) (iloc : nat) (last_n : option Z)
  (loc : string) : result dataframe :=
  let area := mkDF (columns df) (rows_of_location df iloc loc) in
  area <- apply_window last_n area ;;
  sort_values area.

(** Lines 208-212: [group[price_cols].apply(to_numeric).mean().mean()] --
    [DataFrame.mean()] is the mean of each column, the second [mean()]
    averages those. *)
Definition group_avg_price (area : dataframe) (price_cols : list string)
  (group : list row) : result pyfloat :=
  idxs <- mapM (fun c => col_index c area) price_cols ;;
  Ok (mean_of_column_means idxs group).

(** Lines 196-213: one iteration of the loop over the year groups. *)
Definition chart_entry (qt : query_type) (loc : string)
  (price_cols : list string) (area : dataframe) (ym : year_map)
  (yg : Z * list row) : result year_map :=
  let (year, group) := yg in
  let ym :=
    if dict_mem Z.eqb year ym then ym
    else dict_set Z.eqb year [("year", CInt year)] ym in
  ym <- (if wants_demand qt then
           idem <- col_index "demand" area ;;
           total <- series_sum (map (cell_at idem) group) ;;
           n <- py_int total ;;
           set_field year (title loc) (CInt n) ym
         else Ok ym) ;;
  if wants_price qt then
    avg_price <- group_avg_price area price_cols group ;;
    set_field year (title loc ++ "_price") (CNum (py_round2 avg_price)) ym
  else Ok ym.

(** Lines 216-220. *)
Definition table_cols (qt : query_type) (price_cols : list string)
  : list string :=
  (["final_location"; "year"]
     ++ (if wants_demand qt then ["demand"] else [])
     ++ (if wants_price qt then price_cols else []))%list.

(** [area[cols].to_dict(orient="records")] *)
Definition to_dict_records (area : dataframe) (cols : list string)
  : result (list record) :=
  idxs <- mapM (fun c => col_index c area) cols ;;
  Ok (map (fun r => map (fun ci => (fst ci, cell_at (snd ci) r))
                        (combine cols idxs))
          (rows area)).

Definition loop_state : Type :=
  (list record * list summary_entry * year_map)%type.

(** Lines 189-222: what the loop body does with the [area] of [loc]. *)
Definition analyze_area (price_cols : list string) (last_n : option Z)
  (qt : query_type) (acc : loop_state) (loc : string) (area : dataframe)
  : result loop_state :=
  let '(table_data, summaries, ym) := acc in
  text <- generate_mock_summary area price_cols loc last_n ;;
  let summaries := (summaries ++ [mkSummary (title loc) text])%list in
  iy <- col_index "year" area ;;
  ym <- foldM (chart_entry qt loc price_cols area)
              (groupby_year iy (rows area)) ym ;;
  recs <- to_dict_records area (table_cols qt price_cols) ;;
  Ok ((table_data ++ recs)%list, summaries, ym).

(** Lines 181-222: the body of [for loc in found_locs]. *)
Definition analyze_location (df : dataframe) (iloc : nat)
  (price_cols : list string) (last_n : option Z) (qt : query_type)
  (acc : loop_state) (loc : string) : result loop_state :=
  area <- location_area df iloc last_n loc ;;
  analyze_area price_cols last_n qt acc loc area.

(** [(request.data.get("area") or "").lower().strip()] *)
Definition query_of (area_field : option string) : string :=
  strip (lower (match area_field with Some s => s | None => "" end)).

(** [analyze] from line 152 on, for a loaded table. *)
Definition analyze_df (df : dataframe) (area_field : option string)
  : result response :=
  let query := query_of area_field in
  if is_empty query then Ok (mkResponse (SummaryText "Missing query.") 400)
  else
    iloc <- col_index "final_location" df ;;
    let locations := unique (dropna (map (cell_at iloc) (rows df))) in
    let price_cols := detect_price_cols df in
    let last_n := extract_last_n query in
    found_locs <- find_locs query locations ;;
    match found_locs with
    | [] =>
        Ok (mkResponse
              (SummaryText
                 ("No matching location found for '" ++ query ++ "'."))
              400)
    | _ =>
        let qt := classify query in
        acc <- foldM (analyze_location df iloc price_cols last_n qt)
                     found_locs ([], [], []) ;;
        let '(table_data, summaries, ym) := acc in
        chart_data <- sorted_by_year (dict_values ym) ;;
        Ok (mkResponse (Analysis summaries chart_data table_data) 200)
    end.

(** [analyze], lines 146-231.  The handler either returns a response or
    lets an exception escape; the state it leaves is the loader's. *)
Definition analyze (st : state) (area_field : option string)
  : result response * state :=
  let (loaded, st') := load_dataframe st in
  match loaded with
  | None => (Ok (mkResponse (SummaryText "No data available.") 500), st')
  | Some df => (analyze_df df area_field, st')
  end.

(** The states of a process: it starts with nothing cached and nothing
    memoized, then serves uploads and analyses. *)
Inductive reachable : state -> Prop :=
| reach_start (file : option (option sheet)) :
    reachable (mkState None None file)
| reach_upload (st : state) (f : option upload) :
    reachable st -> reachable (snd (upload_file st f))
| reach_analyze (st : state) (area_field : option string) :
    reachable st -> reachable (snd (analyze st area_field)).

(** *** The chart as a sequence of writes

    One iteration of the loop over the year groups makes sure the year has
    a record and assigns at most two of its fields. *)

Definition writes : Type := list (string * cell).

Definition apply_writes (ws : writes) (r : record) : record :=
  fold_left (fun r kv => rec_set (fst kv) (snd kv) r) ws r.

Definition fresh_record (y : Z) : record := [("year", CInt y)].

Definition record_or_fresh (ym : year_map) (y : Z) : record :=
  match dict_get Z.eqb y ym with
  | Some r => r
  | None => fresh_record y
  end.

Definition put (ym : year_map) (op : Z * writes) : year_map :=
  dict_set Z.eqb (fst op) (apply_writes (snd op) (record_or_fresh ym (fst op))) ym.

Definition demand_write (qt : query_type) (loc : string) (area : dataframe)
  (g : list row) : result writes :=
  if wants_demand qt then
    idem <- col_index "demand" area ;;
    total <- series_sum (map (cell_at idem) g) ;;
    n <- py_int total ;;
    Ok [(title loc, CInt n)]
  else Ok [].

Definition price_write (qt : query_type) (loc : string)
  (price_cols : list string) (area : dataframe) (g : list row)
  : result writes :=
  if wants_price qt then
    avg_price <- group_avg_price area price_cols g ;;
    Ok [(title loc ++ "_price", CNum (py_round2 avg_price))]
  else Ok [].

Definition entry_writes (qt : query_type) (loc : string)
  (price_cols : list string) (area : dataframe) (g : list row)
  : result writes :=
  d <- demand_write qt loc area g ;;
  p <- price_write qt loc price_cols area g ;;
  Ok (d ++ p)%list.

(** [year_map[year][key]], [None] when either key is missing. *)
Definition field (ym : year_map) (y : Z) (k : string) : option cell :=
  match dict_get Z.eqb y ym with
  | Some r => rec_get k r
  | None => None
  end.

Fixpoint last_write (k : string) (ws : writes) : option cell :=
  match ws with
  | [] => None
  | (k', v) :: t =>
      match last_write k t with
      | Some v' => Some v'
      | None => if String.eqb k' k then Some v else None
      end
  end.

(** A write with its provenance: location, year, assigned fields. *)
Definition entry : Type := (string * Z * writes)%type.
Definition e_loc (e : entry) : string := fst (fst e).
Definition e_year (e : entry) : Z := snd (fst e).
Definition e_ws (e : entry) : writes := snd e.
Definition untag (e : entry) : Z * writes := (e_year e, e_ws e).

Definition keys_disjoint (ws ws' : writes) : Prop :=
  forall k v v', In (k, v) ws -> In (k, v') ws' -> False.

Definition functional (ws : writes) : Prop :=
  forall k v v', In (k, v) ws -> In (k, v') ws -> v = v'.

(** No two entries of one year assign the same field differently, and no
    entry assigns the field [year]. *)
Definition compatible (L : list entry) : Prop :=
  (forall e e', In e L -> In e' L -> e_year e = e_year e' ->
     e_ws e = e_ws e' \/ keys_disjoint (e_ws e) (e_ws e'))
  /\ (forall e, In e L ->
        functional (e_ws e) /\ forall v, ~ In ("year", v) (e_ws e)).

(** What [year_map] holds once the entries [P] have been written. *)
Record chart_inv (P : list entry) (ym : year_map) : Prop := mkChartInv {
  inv_nodup : NoDup (dict_keys ym);
  inv_years : forall y,
    dict_get Z.eqb y ym <> None <-> exists e, In e P /\ e_year e = y;
  inv_only : forall y k v,
    field ym y k = Some v ->
    (k = "year" /\ v = CInt y)
    \/ exists e, In e P /\ e_year e = y /\ In (k, v) (e_ws e);
  inv_all : forall e k v,
    In e P -> In (k, v) (e_ws e) -> field ym (e_year e) k = Some v;
  inv_year : forall y,
    dict_get Z.eqb y ym <> None -> field ym y "year" = Some (CInt y)
}.

(** In a title-cased string no lower-case letter follows a character
    without case. *)
Fixpoint titled (prev_uncased : bool) (s : string) : bool :=
  match s with
  | EmptyString => true
  | String c t =>
      (if prev_uncased then negb (is_lower c) else true)
      && titled (negb (is_cased c)) t
  end.

(** *** Notions used in the proofs *)

(** The character map of [normalize_label] after the trimming. *)
Definition label_char (c : ascii) : ascii :=
  let c := to_lower c in
  let c := if Ascii.eqb c " " then "_"%char else c in
  if Ascii.eqb c "-" then "_"%char else c.

(** Every row is as wide as the header. *)
Definition wide (df : dataframe) : Prop :=
  Forall (fun r => length r = length (columns df)) (rows df).

Definition column_ok (label : string) (ok : cell -> Prop) (df : dataframe)
  : Prop :=
  forall i, index_of label (columns df) = Some i ->
    Forall (fun r => ok (cell_at i r)) (rows df).

(** The writes of the groups of one area, with their years. *)
Definition group_ops (qt : query_type) (loc : string) (price_cols : list string)
  (area : dataframe) (groups : list (Z * list row)) : result (list (Z * writes)) :=
  mapM (fun yg => ws <- entry_writes qt loc price_cols area (snd yg) ;;
                  Ok (fst yg, ws)) groups.

(** The two chart keys a location writes. *)
Definition chart_key (loc k : string) : Prop :=
  k = title loc \/ k = title loc ++ "_price".

Definition le_fst (a b : Z * record) : bool := fst a <=? fst b.

(** The entry [e] records what location [e_loc e] contributes to the year
    [e_year e]. *)
Definition entry_of_area (df : dataframe) (iloc iy : nat)
  (price_cols : list string) (last_n : option Z) (qt : query_type)
  (e : entry) : Prop :=
  exists area,
    location_area df iloc last_n (e_loc e) = Ok area
    /\ has_rows_in iy area (e_year e)
    /\ entry_writes qt (e_loc e) price_cols area
         (year_group iy area (e_year e)) = Ok (e_ws e).

Definition log_of (df : dataframe) (iloc iy : nat) (price_cols : list string)
  (last_n : option Z) (qt : query_type) (found : list string)
  (L : list entry) : Prop :=
  (forall e, In e L <-> In (e_loc e) found /\ entry_of_area df iloc iy price_cols last_n qt e)
  /\ (forall loc, In loc found ->
        exists area,
          location_area df iloc last_n loc = Ok area
          /\ forall y, has_rows_in iy area y ->
               exists ws, entry_writes qt loc price_cols area
                            (year_group iy area y) = Ok ws).

(** The memoized load, when there is one, is the cached table. *)
Definition memo_agrees (st : state) : Prop :=
  forall r, memo st = Some r -> r = cached_df st.

(** One record of [to_dict(orient="records")]: the selected labels with
    the cells of the row under them. *)
Definition row_record (cols : list string) (idxs : list nat) (r : row)
  : record :=
  map (fun ci => (fst ci, cell_at (snd ci) r)) (combine cols idxs).

(** The characters [re.sub(r"[^\d.]", "", s)] keeps. *)
Definition digit_or_dot (c : ascii) : bool := is_digit c || Ascii.eqb c ".".

(** A float that is a number not below zero. *)
Definition nonneg_finite (f : pyfloat) : Prop :=
  exists q, f = FFin q /\ (0 <= q)%Q.

(** A float that is neither nan nor below zero; the positive infinity,
    which [float] returns for a literal too large for a double, is
    allowed. *)
Definition not_below_zero (f : pyfloat) : Prop :=
  match f with
  | FNan => False
  | FInf negative => negative = false
  | FFin q => (0 <= q)%Q
  end.

(** What [analyze] relies on without checking: a [demand] column, and
    rows as wide as the header. *)
Definition shaped (df : dataframe) : Prop :=
  In "demand" (columns df) /\ wide df.

(** ** Properties of the price normalizer *)

Lemma mapM_raises {A B : Type} (f : A -> result B) (l : list A) (x : A) (e : exn) :
  In x l -> f x = Raise e -> exists e', mapM f l = Raise e'.
Proof.
  induction l as [|a t IH]; simpl; [tauto|].
  intros [->|Hin] Hx.
  - rewrite Hx. simpl. eauto.
  - destruct (f a); simpl; eauto.
    destruct (IH Hin Hx) as [e' ->]. simpl. eauto.
Qed.


(** C5, as the code has it. When the direct conversion of a value fails,
    its text contains a hyphen and one of the hyphen-separated parts is no
    float, [parse_price] returns absent: the stripping step is not tried. *)
Theorem failed_range_is_absent (value : cell) (e : exn) :
  py_float value = Raise e ->
  contains "-" (py_str value) = true ->
  (exists part, In part (split_on hyphen (py_str value))
                /\ float_of_string part = None) ->
  parse_price value = Ok None.
Proof.
  intros Hf Hc [part [Hin Hp]].
  unfold parse_price.
  destruct value as [|z|f|s]; try reflexivity; try discriminate.
  rewrite Hf. cbn [bind try_except py_str] in *. rewrite Hc.
  destruct (mapM_raises (fun x => py_float (CStr x)) _ part ValueError Hin)
    as [e' He'].
  - cbn [py_float]. now rewrite Hp.
  - now rewrite He'.
Qed.

(** Without a hyphen the stripping step decides. *)
Lemma no_hyphen_strips (s : string) :
  float_of_string s = None -> contains "-" s = false ->
  parse_price (CStr s) = strip_and_convert s.
Proof.
  intros Hf Hc. unfold parse_price. cbn [py_float py_str].
  now rewrite Hf, Hc.
Qed.

(** ** Properties of the handlers' control flow *)

Lemma load_memoized (st : state) (r : option dataframe) :
  memo st = Some r -> load_dataframe st = (r, st).
Proof. unfold load_dataframe. now intros ->. Qed.

Lemma load_cached (st : state) (df : dataframe) :
  memo st = None -> cached_df st = Some df ->
  load_dataframe st = (Some df, mkState (Some df) (Some (Some df)) (excel_file st)).
Proof.
  intros Hm Hc. unfold load_dataframe, load_body. rewrite Hm, Hc.
  cbn. now rewrite Hc.
Qed.

(** C7, as the code has it. A request whose query is missing or empty
    after lower-casing and trimming gets the client error "Missing query."
    when a table is cached or loadable; when none is, the server error
    "No data available." comes first. *)
Theorem missing_query_response (st : state) (area_field : option string) :
  is_empty (query_of area_field) = true ->
  fst (analyze st area_field) =
    match fst (load_dataframe st) with
    | Some _ => Ok (mkResponse (SummaryText "Missing query.") 400)
    | None => Ok (mkResponse (SummaryText "No data available.") 500)
    end.
Proof.
  intros Hq. unfold analyze.
  destruct (load_dataframe st) as [[df|] st']; cbn [fst]; [|reflexivity].
  unfold analyze_df. now rewrite Hq.
Qed.

(** C4. An upload whose file fails to parse answers with the server error
    and leaves the whole module state -- hence the table later [analyze]
    calls see -- as it was; an upload that parses stores the new table,
    clears the memoized load, and the next [analyze] works on the new
    table. *)
Theorem upload_failure_and_success (st : state) (f : upload) :
  accepted_name (name f) = true ->
  (forall e, read_and_normalize (workbook f) = Raise e ->
     upload_file st (Some f) =
       (mkResponse (ErrorBody "Failed to process file.") 500, st))
  /\
  (forall df, read_and_normalize (workbook f) = Ok df ->
     exists st',
       upload_file st (Some f) =
         (mkResponse (MessageBody "File uploaded successfully.") 200, st')
       /\ cached_df st' = Some df
       /\ memo st' = None
       /\ fst (load_dataframe st') = Some df
       /\ forall area_field,
            fst (analyze st' area_field) = analyze_df df area_field).
Proof.
  intros Hn. split.
  - intros e He. unfold upload_file. now rewrite Hn, He.
  - intros df Hdf. eexists. unfold upload_file. rewrite Hn, Hdf.
    cbn [negb]. split; [reflexivity|].
    split; [reflexivity|]. split; [reflexivity|].
    assert (Hl : forall s, load_dataframe (mkState (Some df) None s)
                   = (Some df, mkState (Some df) (Some (Some df)) s))
      by (intros s; now apply load_cached).
    split.
    + now rewrite Hl.
    + intros q. unfold analyze. now rewrite Hl.
Qed.

(** Any upload that is not answered with 200 leaves the state alone. *)
Lemma upload_error_keeps_state (st : state) (f : option upload) :
  status (fst (upload_file st f)) <> 200 -> snd (upload_file st f) = st.
Proof.
  unfold upload_file. destruct f as [f|]; [|reflexivity].
  destruct (accepted_name (name f)); cbn [negb]; [|reflexivity].
  destruct (read_and_normalize (workbook f)); cbn [fst snd status];
    [congruence|reflexivity].
Qed.

(** C3, where the code departs from it. With a first price of 0 the
    percentage of [generate_mock_summary] divides by zero and the exception
    leaves [analyze]; with a "last N years" window and a location without
    any year, [int(pd.NA)] does. *)
Theorem analyze_lets_exceptions_escape :
  fst (analyze zero_price_state (Some "pune")) = Raise ZeroDivisionError
  /\ fst (analyze no_year_state (Some "pune last 2 years")) = Raise TypeError.
Proof. split; vm_compute; reflexivity. Qed.

(** ** Characters and strings: facts used by the loader's invariant *)

Ltac each_char c := destruct c as [[] [] [] [] [] [] [] []]; reflexivity.

Lemma to_lower_space (c : ascii) : is_space (to_lower c) = is_space c.
Proof. each_char c. Qed.

Lemma to_lower_idem (c : ascii) : to_lower (to_lower c) = to_lower c.
Proof. each_char c. Qed.

Lemma str_map_map (f g : ascii -> ascii) (s : string) :
  str_map f (str_map g s) = str_map (fun c => f (g c)) s.
Proof. induction s; simpl; congruence. Qed.

Lemma str_map_ext (f g : ascii -> ascii) (s : string) :
  (forall c, f c = g c) -> str_map f s = str_map g s.
Proof. intros H. induction s; simpl; congruence. Qed.

Lemma str_map_fix (f : ascii -> ascii) (s : string) :
  (forall c, f (f c) = f c) -> str_map f (str_map f s) = str_map f s.
Proof. intros H. rewrite str_map_map. now apply str_map_ext. Qed.

Lemma lower_idem (s : string) : lower (lower s) = lower s.
Proof. apply str_map_fix, to_lower_idem. Qed.

Lemma str_map_empty (f : ascii -> ascii) (s : string) :
  str_map f s = EmptyString -> s = EmptyString.
Proof. destruct s; simpl; congruence. Qed.

Lemma lower_lstrip (s : string) : lower (lstrip s) = lstrip (lower s).
Proof.
  induction s as [|c t IH]; simpl; [reflexivity|].
  rewrite to_lower_space. destruct (is_space c); [exact IH|reflexivity].
Qed.

Lemma lower_rstrip (s : string) : lower (rstrip s) = rstrip (lower s).
Proof.
  induction s as [|c t IH]; simpl; [reflexivity|].
  unfold lower in *. rewrite <- IH, to_lower_space.
  destruct (rstrip t) as [|d u]; simpl; [|reflexivity].
  destruct (is_space c); reflexivity.
Qed.

Lemma lower_strip (s : string) : lower (strip s) = strip (lower s).
Proof. unfold strip. now rewrite lower_rstrip, lower_lstrip. Qed.

Lemma rstrip_cons (c : ascii) (t : string) :
  is_space c = false -> rstrip (String c t) = String c (rstrip t).
Proof. intros H. simpl. destruct (rstrip t); [now rewrite H|reflexivity]. Qed.

Lemma rstrip_idem (s : string) : rstrip (rstrip s) = rstrip s.
Proof.
  induction s as [|c t IH]; simpl; [reflexivity|].
  destruct (rstrip t) as [|d u] eqn:E.
  - destruct (is_space c) eqn:Hc; simpl; [reflexivity|now rewrite Hc].
  - change (rstrip (String c (String d u)) = String c (String d u)).
    simpl. simpl in IH. now rewrite IH.
Qed.

Lemma lstrip_head (s : string) : head_ok (lstrip s) = true.
Proof.
  induction s as [|c t IH]; simpl; [reflexivity|].
  destruct (is_space c) eqn:Hc; [exact IH|]. simpl. now rewrite Hc.
Qed.

Lemma head_ok_lstrip (s : string) : head_ok s = true -> lstrip s = s.
Proof.
  destruct s as [|c t]; simpl; [reflexivity|].
  now destruct (is_space c).
Qed.

Lemma rstrip_head (s : string) : head_ok s = true -> head_ok (rstrip s) = true.
Proof.
  destruct s as [|c t]; [reflexivity|]. cbn [head_ok]. intros H.
  rewrite rstrip_cons; [exact H|]. now destruct (is_space c).
Qed.

Lemma last_ok_rstrip (s : string) : last_ok s = true -> rstrip s = s.
Proof.
  induction s as [|c t IH]; [reflexivity|].
  destruct t as [|d u].
  - simpl. now destruct (is_space c).
  - intros H. change (last_ok (String d u) = true) in H.
    specialize (IH H). simpl in *. now rewrite IH.
Qed.

Lemma rstrip_last (s : string) : last_ok (rstrip s) = true.
Proof. 
  induction s as [|c t IH]; [reflexivity|]. simpl.
  destruct (rstrip t) as [|d u] eqn:E.
  - destruct (is_space c) eqn:Hc; simpl; [reflexivity|now rewrite Hc].
  - exact IH.
Qed.

Lemma strip_ends (s : string) :
  head_ok (strip s) = true /\ last_ok (strip s) = true.
Proof.
  unfold strip. split; [apply rstrip_head, lstrip_head|apply rstrip_last].
Qed.

Lemma ends_strip (s : string) :
  head_ok s = true -> last_ok s = true -> strip s = s.
Proof.
  intros Hh Hl. unfold strip. rewrite (head_ok_lstrip _ Hh).
  now apply last_ok_rstrip.
Qed.

Lemma strip_idem (s : string) : strip (strip s) = strip s.
Proof. destruct (strip_ends s). now apply ends_strip. Qed.

Lemma str_map_head (f : ascii -> ascii) (s : string) :
  (forall c, is_space c = false -> is_space (f c) = false) ->
  head_ok s = true -> head_ok (str_map f s) = true.
Proof.
  intros Hf. destruct s as [|c t]; simpl; [reflexivity|].
  destruct (is_space c) eqn:Hc; [discriminate|]. now rewrite Hf.
Qed.

Lemma str_map_last (f : ascii -> ascii) (s : string) :
  (forall c, is_space c = false -> is_space (f c) = false) ->
  last_ok s = true -> last_ok (str_map f s) = true.
Proof.
  intros Hf. induction s as [|c t IH]; [reflexivity|].
  destruct t as [|d u].
  - simpl. destruct (is_space c) eqn:Hc; [discriminate|]. now rewrite Hf.
  - intros H. change (last_ok (String d u) = true) in H.
    specialize (IH H). exact IH.
Qed.

Lemma has_char_map (a : ascii) (f : ascii -> ascii) (s : string) :
  (forall c, Ascii.eqb (f c) a = false) -> has_char a (str_map f s) = false.
Proof.
  intros Hf. unfold has_char.
  induction s as [|c t IH]; simpl; [reflexivity|].
  rewrite Hf. simpl. exact IH.
Qed.

Lemma normalize_label_chars (c : cell) :
  normalize_label c = str_map label_char (strip (py_str c)).
Proof.
  unfold normalize_label, replace_char, lower.
  now rewrite !str_map_map.
Qed.

Lemma label_char_space (c : ascii) :
  is_space c = false -> is_space (label_char c) = false.
Proof. destruct c as [[] [] [] [] [] [] [] []]; intros H; try reflexivity; discriminate H. Qed.

Lemma label_char_lower (c : ascii) : to_lower (label_char c) = label_char c.
Proof. each_char c. Qed.

Lemma label_char_no_space (c : ascii) : Ascii.eqb (label_char c) " " = false.
Proof. each_char c. Qed.

Lemma label_char_no_hyphen (c : ascii) : Ascii.eqb (label_char c) "-" = false.
Proof. each_char c. Qed.

Lemma normalize_label_ok (c : cell) : label_ok (normalize_label c).
Proof.
  rewrite normalize_label_chars.
  destruct (strip_ends (py_str c)) as [Hh Hl].
  repeat split.
  - apply ends_strip.
    + now apply str_map_head; [apply label_char_space|].
    + now apply str_map_last; [apply label_char_space|].
  - unfold lower. rewrite str_map_map.
    apply str_map_ext, label_char_lower.
  - apply has_char_map, label_char_no_space.
  - apply has_char_map, label_char_no_hyphen.
Qed.

Lemma normalize_location_ok (c : cell) : location_ok (normalize_location c).
Proof.
  unfold normalize_location. eexists. split; [reflexivity|]. split.
  - now rewrite lower_strip, lower_idem.
  - apply strip_idem.
Qed.

(** ** The loader establishes the invariant *)

Lemma bind_ok {A B : Type} (m : result A) (k : A -> result B) (b : B) :
  bind m k = Ok b -> exists a, m = Ok a /\ k a = Ok b.
Proof. destruct m as [a|e]; simpl; [eauto|discriminate]. Qed.

Ltac bind_inv H :=
  let a := fresh "x" in
  let Ha := fresh "Hx" in
  apply bind_ok in H; destruct H as [a [Ha H]].

Lemma mapM_Forall2 {A B : Type} (f : A -> result B) (l : list A) (l' : list B) :
  mapM f l = Ok l' -> Forall2 (fun a b => f a = Ok b) l l'.
Proof.
  revert l'. induction l as [|a t IH]; simpl; intros l' H.
  - injection H as <-. constructor.
  - bind_inv H. bind_inv H. injection H as <-. constructor; auto.
Qed.

Lemma fit_length (n : nat) (r : row) : length (fit n r) = n.
Proof.
  revert r. induction n as [|n IH]; intros r; [reflexivity|].
  destruct r; simpl; now rewrite IH.
Qed.

Lemma set_nth_length (i : nat) (f : cell -> cell) (r : row) :
  length (set_nth i f r) = length r.
Proof.
  revert i. induction r as [|c t IH]; intros [|i]; simpl; auto.
Qed.

Lemma cell_at_set_nth (i : nat) (f : cell -> cell) (r : row) :
  (i < length r)%nat -> cell_at i (set_nth i f r) = f (cell_at i r).
Proof.
  unfold cell_at. revert i.
  induction r as [|c t IH]; intros [|i]; simpl; intros H; try lia; auto.
  apply IH. lia.
Qed.

Lemma set_nthM_frame (j : nat) (f : cell -> result cell) (r r' : row) :
  set_nthM j f r = Ok r' ->
  length r' = length r
  /\ forall i, i <> j -> cell_at i r' = cell_at i r.
Proof.
  unfold cell_at. revert j r'.
  induction r as [|c t IH]; intros j r' H.
  - destruct j; simpl in H; injection H as <-; auto.
  - destruct j as [|j]; simpl in H.
    + bind_inv H. injection H as <-. split; [reflexivity|].
      intros [|i] Hi; [congruence|reflexivity].
    + bind_inv H. injection H as <-.
      destruct (IH _ _ Hx) as [Hl Hc]. split; [simpl; congruence|].
      intros [|i] Hi; simpl; [reflexivity|]. apply Hc. congruence.
Qed.

Lemma index_of_nth (label : string) (cols : list string) (i : nat) :
  index_of label cols = Some i ->
  (i < length cols)%nat /\ nth i cols EmptyString = label.
Proof.
  revert i. induction cols as [|c t IH]; simpl; intros i H; [discriminate|].
  destruct (String.eqb c label) eqn:E.
  - injection H as <-. apply String.eqb_eq in E. split; [lia|exact E].
  - destruct (index_of label t) as [k|]; [|discriminate].
    injection H as <-. destruct (IH k eq_refl). split; [lia|assumption].
Qed.

Lemma index_of_absent (label : string) (cols : list string) :
  existsb (String.eqb label) cols = false -> index_of label cols = None.
Proof.
  induction cols as [|c t IH]; simpl; [reflexivity|].
  rewrite (String.eqb_sym label c).
  destruct (String.eqb c label); simpl; [discriminate|].
  intros H. now rewrite IH.
Qed.

Lemma index_of_app_other (label d : string) (cols : list string) (i : nat) :
  String.eqb d label = false ->
  index_of label (cols ++ [d]) = Some i -> index_of label cols = Some i.
Proof.
  intros Hd. revert i.
  induction cols as [|c t IH]; simpl; intros i H.
  - now rewrite Hd in H.
  - destruct (String.eqb c label); [assumption|].
    destruct (index_of label (t ++ [d])) as [k|]; [|discriminate].
    now rewrite (IH k eq_refl).
Qed.

Lemma col_index_of (label : string) (df : dataframe) (i : nat) :
  col_index label df = Ok i -> index_of label (columns df) = Some i.
Proof.
  unfold col_index. destruct (index_of label (columns df)); [|discriminate].
  destruct (Nat.eqb _ 1); congruence.
Qed.

Lemma to_int64_cell (c c' : cell) : to_int64 c = Ok c' -> int64_cell c'.
Proof.
  unfold to_int64, int64_cell. destruct (to_numeric c) as [| |q].
  - intros [= <-]. now left.
  - discriminate.
  - destruct (_ =? 1); [|discriminate]. intros [= <-]. right. eauto.
Qed.

Lemma set_nthM_at (j : nat) (f : cell -> result cell) (r r' : row) :
  set_nthM j f r = Ok r' -> (j < length r)%nat ->
  f (cell_at j r) = Ok (cell_at j r').
Proof.
  unfold cell_at. revert j r'.
  induction r as [|c t IH]; intros j r' H Hlt; [simpl in Hlt; lia|].
  destruct j as [|j]; simpl in H.
  - bind_inv H. injection H as <-. exact Hx.
  - bind_inv H. injection H as <-. simpl. apply IH; [assumption|].
    simpl in Hlt. lia.
Qed.

Lemma normalize_locations_ok (df df1 : dataframe) :
  wide df ->
  on_column "final_location" (set_column_total normalize_location) df = Ok df1 ->
  columns df1 = columns df /\ wide df1
  /\ column_ok "final_location" location_ok df1.
Proof.
  intros Hw H. unfold on_column in H.
  destruct (existsb _ _) eqn:E.
  - bind_inv H. bind_inv H. injection H as <-.
    injection Hx0 as <-. cbn [columns rows] in *.
    apply col_index_of in Hx.
    destruct (index_of_nth _ _ _ Hx) as [Hlt _].
    split; [reflexivity|]. split.
    + unfold wide. cbn [columns rows]. apply Forall_map.
      eapply Forall_impl; [|exact Hw].
      intros r Hr. cbn beta in *. now rewrite set_nth_length.
    + intros i Hi. cbn [columns rows] in *.
      rewrite Hx in Hi. injection Hi as <-.
      apply Forall_map. eapply Forall_impl; [|exact Hw].
      intros r Hr. cbn beta in Hr. rewrite cell_at_set_nth by lia.
      apply normalize_location_ok.
  - injection H as <-. split; [reflexivity|]. split; [assumption|].
    intros i Hi. now rewrite (index_of_absent _ _ E) in Hi.
Qed.

Lemma coerce_years_ok (df df2 : dataframe) :
  wide df -> column_ok "final_location" location_ok df ->
  on_column "year" (set_column to_int64) df = Ok df2 ->
  columns df2 = columns df /\ wide df2
  /\ column_ok "final_location" location_ok df2
  /\ column_ok "year" int64_cell df2.
Proof.
  intros Hw Hok H. unfold on_column in H.
  destruct (existsb _ _) eqn:E.
  - bind_inv H. bind_inv H. injection H as <-.
    cbn [columns rows] in *. apply col_index_of in Hx.
    destruct (index_of_nth _ _ _ Hx) as [Hlt Hy].
    unfold set_column in Hx0. apply mapM_Forall2 in Hx0.
    split; [reflexivity|].
    assert (Hall : Forall2 (fun r r' =>
                     length r' = length (columns df)
                     /\ (forall i, i <> x -> cell_at i r' = cell_at i r)
                     /\ int64_cell (cell_at x r')) (rows df) x0).
    { unfold wide in Hw.
      induction Hx0 as [|r r' rs rs' Hr _ IH]; [constructor|].
      inversion Hw as [|? ? Hlen Hrest]; subst.
      constructor; [|now apply IH].
      destruct (set_nthM_frame _ _ _ _ Hr) as [Hl Hc].
      split; [congruence|]. split; [exact Hc|].
      eapply to_int64_cell, set_nthM_at; [exact Hr|lia]. }
    split; [|split].
    + unfold wide. cbn [columns rows].
      clear - Hall. induction Hall as [|r r' rs rs' [Hl _] _ IH];
        constructor; assumption.
    + intros i Hi. cbn [columns rows] in *.
      assert (Hne : i <> x).
      { destruct (index_of_nth _ _ _ Hi) as [_ Hl].
        intros ->. rewrite Hy in Hl. discriminate. }
      specialize (Hok i Hi). clear - Hall Hok Hne.
      induction Hall as [|r r' rs rs' [_ [Hc _]] _ IH]; [constructor|].
      inversion Hok; subst. constructor; [|now apply IH].
      now rewrite Hc.
    + intros i Hi. cbn [columns rows] in *.
      rewrite Hx in Hi. injection Hi as <-. clear - Hall.
      induction Hall as [|r r' rs rs' [_ [_ Hc]] _ IH]; constructor; assumption.
  - injection H as <-. split; [reflexivity|]. split; [assumption|].
    split; [assumption|].
    intros i Hi. now rewrite (index_of_absent _ _ E) in Hi.
Qed.

Lemma demand_label_ok : label_ok "demand".
Proof. repeat split. Qed.

Lemma column_ok_app (label : string) (ok : cell -> Prop) (df : dataframe)
  (rs : list row) :
  wide df -> column_ok label ok df ->
  String.eqb "demand" label = false ->
  Forall2 (fun r r' => exists v, r' = (r ++ [v])%list) (rows df) rs ->
  column_ok label ok (mkDF (columns df ++ ["demand"])%list rs).
Proof.
  intros Hw Hok Hne Hall i Hi. cbn [columns rows] in *.
  apply index_of_app_other in Hi; [|assumption].
  destruct (index_of_nth _ _ _ Hi) as [Hlt _].
  specialize (Hok i Hi). unfold wide in Hw.
  induction Hall as [|r r' rs0 rs' [v ->] _ IH]; [constructor|].
  inversion Hok; subst. inversion Hw; subst.
  constructor; [|now apply IH].
  unfold cell_at in *. rewrite app_nth1 by lia. assumption.
Qed.

Lemma derive_demand_ok (df df3 : dataframe) :
  Forall label_ok (columns df) -> wide df ->
  column_ok "final_location" location_ok df ->
  column_ok "year" int64_cell df ->
  derive_demand df = Ok df3 -> table_ok df3.
Proof.
  intros Hlab Hw Hloc Hyr H. unfold derive_demand in H.
  destruct (existsb _ _).
  - injection H as <-. now repeat split.
  - bind_inv H. injection H as <-.
    assert (Hall : Forall2 (fun r r' => exists v, r' = (r ++ [v])%list)
                           (rows df) x).
    { apply mapM_Forall2 in Hx.
      induction Hx as [|r r' rs rs' Hr _ IH]; constructor; [|assumption].
      bind_inv Hr. injection Hr as <-. eauto. }
    split; [|split].
    + cbn [columns]. apply Forall_app. split; [assumption|].
      constructor; [apply demand_label_ok|constructor].
    + now apply column_ok_app.
    + now apply column_ok_app.
Qed.

Lemma normalize_ok (raw : sheet) (df : dataframe) :
  normalize raw = Ok df -> table_ok df.
Proof.
  unfold normalize. intros H. bind_inv H. bind_inv H.
  apply normalize_locations_ok in Hx.
  - destruct Hx as [Hc1 [Hw1 Hok1]].
    destruct (coerce_years_ok _ _ Hw1 Hok1 Hx0) as [Hc2 [Hw2 [Hok2 Hyr2]]].
    apply (derive_demand_ok _ _) in H; try assumption.
    rewrite Hc2, Hc1. cbn [columns].
    apply Forall_map, Forall_forall. intros c _. apply normalize_label_ok.
  - unfold wide. cbn [rows columns]. apply Forall_map, Forall_forall.
    intros r _. apply fit_length.
Qed.

Lemma read_and_normalize_ok (parsed : option sheet) (df : dataframe) :
  read_and_normalize parsed = Ok df -> table_ok df.
Proof. destruct parsed; [apply normalize_ok|discriminate]. Qed.



Lemma upload_keeps_ok (st : state) (f : option upload) :
  state_ok st -> state_ok (snd (upload_file st f)).
Proof.
  intros [Hc Hm]. unfold upload_file.
  destruct f as [f|]; [|cbn [snd]; now split].
  destruct (accepted_name (name f)); cbn [negb]; [|cbn [snd]; now split].
  destruct (read_and_normalize (workbook f)) as [df|e] eqn:E;
    [|cbn [snd]; now split].
  split; cbn; intros df' H; [|discriminate].
  injection H as <-. eapply read_and_normalize_ok, E.
Qed.

Lemma load_keeps_ok (st : state) :
  state_ok st ->
  state_ok (snd (load_dataframe st))
  /\ forall df, fst (load_dataframe st) = Some df -> table_ok df.
Proof.
  intros [Hc Hm]. unfold load_dataframe, load_body.
  destruct (memo st) as [r|] eqn:Em.
  - cbn [fst snd]. split; [split; [assumption|now rewrite Em]|].
    intros df ->. now apply Hm.
  - destruct (cached_df st) as [df|] eqn:Ec.
    + cbn [fst snd]. split.
      * split; cbn; intros df' H; [rewrite Ec in H|];
          injection H as <-; now apply Hc.
      * intros df' [= <-]. now apply Hc.
    + destruct (excel_file st) as [parsed|].
      * destruct (read_and_normalize parsed) as [df|e] eqn:E; cbn [fst snd].
        -- split.
           ++ split; cbn; intros df' H; injection H as <-;
                eapply read_and_normalize_ok, E.
           ++ intros df' [= <-]. eapply read_and_normalize_ok, E.
        -- split; [|discriminate].
           split; cbn; intros df' H; [rewrite Ec in H|]; discriminate.
      * cbn [fst snd]. split; [|discriminate].
        split; cbn; intros df' H; [rewrite Ec in H|]; discriminate.
Qed.

Lemma analyze_state (st : state) (area_field : option string) :
  snd (analyze st area_field) = snd (load_dataframe st).
Proof.
  unfold analyze. now destruct (load_dataframe st) as [[df|] st'].
Qed.

Lemma analyze_loaded (st st' : state) (df : dataframe)
  (area_field : option string) :
  load_dataframe st = (Some df, st') ->
  analyze st area_field = (analyze_df df area_field, st').
Proof. unfold analyze. now intros ->. Qed.

(** Every state the two handlers can reach from a fresh process holds
    normalized tables only. *)
Lemma reachable_ok (st : state) : reachable st -> state_ok st.
Proof.
  induction 1 as [file|st f _ IH|st q _ IH].
  - split; discriminate.
  - now apply upload_keeps_ok.
  - rewrite analyze_state. now apply load_keeps_ok.
Qed.

Lemma reachable_table_ok (st : state) (df : dataframe) :
  reachable st -> fst (load_dataframe st) = Some df -> table_ok df.
Proof. intros H. now apply load_keeps_ok, reachable_ok. Qed.


(** ** Sorting, maximum and window *)

Lemma insert_by_perm {A : Type} (le : A -> A -> bool) (x : A) (l : list A) :
  Permutation (insert_by le x l) (x :: l).
Proof.
  induction l as [|y t IH]; simpl; [reflexivity|].
  destruct (le x y); [reflexivity|].
  rewrite IH. apply perm_swap.
Qed.

Lemma sort_by_perm {A : Type} (le : A -> A -> bool) (l : list A) :
  Permutation (sort_by le l) l.
Proof.
  induction l as [|x t IH]; simpl; [reflexivity|].
  rewrite insert_by_perm. now constructor.
Qed.

Lemma sort_by_in {A : Type} (le : A -> A -> bool) (l : list A) (x : A) :
  In x (sort_by le l) <-> In x l.
Proof.
  split; apply Permutation_in;
    [apply sort_by_perm|apply Permutation_sym, sort_by_perm].
Qed.

Section Sorting.
Context {A : Type} (le : A -> A -> bool).
Hypothesis le_total : forall a b, le a b = true \/ le b a = true.
Hypothesis le_trans : forall a b c, le a b = true -> le b c = true -> le a c = true.

Lemma insert_by_sorted (x : A) (l : list A) :
  StronglySorted (fun a b => le a b = true) l ->
  StronglySorted (fun a b => le a b = true) (insert_by le x l).
Proof using le_total le_trans.
  induction 1 as [|y t Ht IH Hy]; simpl.
  - repeat constructor.
  - destruct (le x y) eqn:E.
    + constructor; [now constructor|].
      constructor; [assumption|].
      eapply Forall_impl; [|exact Hy]. intros b Hb. now apply (le_trans x y b).
    + constructor; [assumption|].
      assert (Hyx : le y x = true) by (destruct (le_total x y); congruence).
      eapply Permutation_Forall;
        [apply Permutation_sym, insert_by_perm|].
      now constructor.
Qed.

Lemma sort_by_sorted (l : list A) :
  StronglySorted (fun a b => le a b = true) (sort_by le l).
Proof using le_total le_trans.
  induction l; simpl; [constructor|now apply insert_by_sorted].
Qed.

Lemma sort_by_fixed (l : list A) :
  StronglySorted (fun a b => le a b = true) l -> sort_by le l = l.
Proof.
  induction 1 as [|x t Ht IH Hx]; simpl; [reflexivity|].
  rewrite IH. destruct Hx as [|y u Hy _]; simpl; [reflexivity|].
  now rewrite Hy.
Qed.

Lemma sort_by_idem (l : list A) : sort_by le (sort_by le l) = sort_by le l.
Proof using le_total le_trans. apply sort_by_fixed, sort_by_sorted. Qed.

End Sorting.

Lemma year_le_total (a b : option Z) : year_le a b = true \/ year_le b a = true.
Proof. destruct a, b; simpl; auto; lia. Qed.

Lemma year_le_trans (a b c : option Z) :
  year_le a b = true -> year_le b c = true -> year_le a c = true.
Proof. destruct a, b, c; simpl; auto; try discriminate; lia. Qed.

Lemma sort_values_year_idem (iy : nat) (rs : list row) :
  sort_values_year iy (sort_values_year iy rs) = sort_values_year iy rs.
Proof.
  apply sort_by_idem.
  - intros a b. apply year_le_total.
  - intros a b c. apply year_le_trans.
Qed.

Lemma max_fold (iy : nat) (rs : list row) (acc : option Z) :
  match fold_left (max_step iy) rs acc with
  | Some m =>
      (acc = Some m \/ exists r, In r rs /\ year_at iy r = Some m)
      /\ (forall a, acc = Some a -> a <= m)
      /\ (forall r y, In r rs -> year_at iy r = Some y -> y <= m)
  | None => acc = None /\ forall r, In r rs -> year_at iy r = None
  end.
Proof. clear row_sum.
  revert acc. induction rs as [|r t IH]; intros acc; simpl.
  - destruct acc; repeat split; auto; try tauto; intros; try congruence.
    injection H as <-. lia.
  - specialize (IH (max_step iy acc r)).
    destruct (fold_left (max_step iy) t (max_step iy acc r)) as [m|].
    + destruct IH as [Hex [Hacc Hall]].
      unfold max_step in Hex, Hacc.
      destruct (year_at iy r) as [y|] eqn:Ey.
      * destruct acc as [a|].
        -- assert (Hm := Hacc _ eq_refl). repeat split.
           ++ destruct Hex as [Hex|[r' [Hin Hr']]]; [|eauto].
              injection Hex as Hex.
              destruct (Z.max_spec a y) as [[_ Hmax]|[_ Hmax]];
                rewrite Hmax in Hex; subst; eauto.
           ++ intros a' Ha'. injection Ha' as <-. lia.
           ++ intros r' y' [<-|Hin] Hy'; [|eauto].
              rewrite Ey in Hy'. injection Hy' as <-. lia.
        -- assert (Hm := Hacc _ eq_refl). repeat split.
           ++ destruct Hex as [Hex|[r' [Hin Hr']]]; [|eauto].
              injection Hex as <-. eauto.
           ++ discriminate.
           ++ intros r' y' [<-|Hin] Hy'; [|eauto].
              rewrite Ey in Hy'. injection Hy' as <-. lia.
      * repeat split.
        -- destruct Hex as [Hex|[r' [Hin Hr']]]; eauto.
        -- assumption.
        -- intros r' y' [<-|Hin] Hy'; [congruence|eauto].
    + destruct IH as [Hacc Hall]. unfold max_step in Hacc.
      destruct (year_at iy r) as [y|] eqn:Ey.
      * destruct acc; discriminate.
      * split; [assumption|]. intros r' [<-|Hin]; auto.
Qed.

Lemma max_year_of_fold (iy : nat) (rs : list row) :
  max_year_of iy rs = fold_left (max_step iy) rs None.
Proof. reflexivity. Qed.

Lemma max_year_of_max (iy : nat) (rs : list row) (m : Z) :
  max_year_of iy rs = Some m <-> is_max_year iy rs m.
Proof.
  rewrite max_year_of_fold. pose proof (max_fold iy rs None) as H.
  destruct (fold_left (max_step iy) rs None) as [m'|].
  - destruct H as [[H|Hex] [_ Hall]]; [discriminate|]. split.
    + intros E. injection E as <-. now split.
    + intros [[r [Hin Hr]] Hle]. f_equal.
      destruct Hex as [r' [Hin' Hr']].
      pose proof (Hall _ _ Hin Hr). pose proof (Hle _ _ Hin' Hr'). lia.
  - destruct H as [_ Hnone]. split; [discriminate|].
    intros [[r [Hin Hr]] _]. rewrite (Hnone _ Hin) in Hr. discriminate.
Qed.

Lemma filter_all {A : Type} (p : A -> bool) (l : list A) :
  (forall x, In x l -> p x = true) -> filter p l = l.
Proof.
  induction l as [|x t IH]; simpl; intros H; [reflexivity|].
  rewrite (H x (or_introl eq_refl)). f_equal. apply IH. auto.
Qed.

Lemma year_gt_window (iy : nat) (m n : Z) (r : row) :
  year_gt iy (m - n) r = true <-> in_window iy m n r.
Proof.
  unfold year_gt, in_window. destruct (year_at iy r) as [y|].
  - rewrite Z.ltb_lt. split; [eauto|]. now intros [y' [[= <-] H]].
  - split; [discriminate|]. now intros [y' [? _]].
Qed.

Lemma col_index_columns (label : string) (df df' : dataframe) :
  columns df' = columns df -> col_index label df' = col_index label df.
Proof. unfold col_index. now intros ->. Qed.

Lemma col_index_mk (label : string) (df : dataframe) (rs : list row) :
  col_index label (mkDF (columns df) rs) = col_index label df.
Proof. reflexivity. Qed.

Lemma sort_values_rows (df : dataframe) (iy : nat) (rs : list row) :
  col_index "year" df = Ok iy ->
  sort_values (mkDF (columns df) rs)
  = Ok (mkDF (columns df) (sort_values_year iy rs)).
Proof. intros Hy. unfold sort_values. now rewrite col_index_mk, Hy. Qed.

Lemma apply_window_rows (df : dataframe) (iy : nat) (rs : list row) (n m : Z) :
  0 < n -> col_index "year" df = Ok iy -> max_year_of iy rs = Some m ->
  apply_window (Some n) (mkDF (columns df) rs)
  = Ok (mkDF (columns df) (filter (year_gt iy (m - n)) rs)).
Proof.
  intros Hn Hy Hm. unfold apply_window.
  replace (n =? 0) with false by lia.
  rewrite col_index_mk, Hy. cbn [bind rows columns]. now rewrite Hm.
Qed.

(** A window of 0 years is no window. *)
Lemma zero_window_is_no_window (df : dataframe) (iloc : nat) (loc : string) :
  location_area df iloc (Some 0) loc = location_area df iloc None loc.
Proof. reflexivity. Qed.

(** C6, as the code has it. For a window N >= 1 and a location that has
    a maximum year, the area of the location is made of exactly the
    location's rows whose year is strictly greater than that maximum minus
    N; the summary generator's own window removes none of them, and the
    chart and table steps of the loop body work on that same area. *)
Theorem window_rows (df : dataframe) (iloc : nat) (price_cols : list string)
  (qt : query_type) (acc : loop_state) (loc : string) (n : Z) (iy : nat)
  (m : Z) :
  0 < n ->
  col_index "year" df = Ok iy ->
  max_year_of iy (rows_of_location df iloc loc) = Some m ->
  exists area,
    location_area df iloc (Some n) loc = Ok area
    /\ is_max_year iy (rows_of_location df iloc loc) m
    /\ (forall r, In r (rows area) <->
                  In r (rows_of_location df iloc loc) /\ in_window iy m n r)
    /\ Permutation (rows area)
         (filter (year_gt iy (m - n)) (rows_of_location df iloc loc))
    /\ generate_mock_summary area price_cols loc (Some n)
       = summary_body area price_cols loc (Some n)
    /\ analyze_location df iloc price_cols (Some n) qt acc loc
       = analyze_area price_cols (Some n) qt acc loc area.
Proof.
  intros Hn Hy Hmax.
  set (L := rows_of_location df iloc loc) in *.
  set (W := filter (year_gt iy (m - n)) L).
  exists (mkDF (columns df) (sort_values_year iy W)).
  assert (Hloc : location_area df iloc (Some n) loc
                 = Ok (mkDF (columns df) (sort_values_year iy W))).
  { unfold location_area. fold L.
    rewrite (apply_window_rows df iy L n m Hn Hy Hmax). cbn [bind].
    now apply sort_values_rows. }
  assert (Hin : forall r, In r (sort_values_year iy W) <->
                          In r L /\ in_window iy m n r).
  { intros r. unfold sort_values_year. rewrite sort_by_in. unfold W.
    now rewrite filter_In, year_gt_window. }
  pose proof (proj1 (max_year_of_max iy L m) Hmax) as HM.
  assert (Hmax' : max_year_of iy (sort_values_year iy W) = Some m).
  { apply max_year_of_max. destruct HM as [[r [Hr Hyr]] Hle]. split.
    - exists r. split; [|assumption]. apply Hin. split; [assumption|].
      exists m. split; [assumption|lia].
    - intros r' y Hr' Hy'. apply Hin in Hr'. eapply Hle; [apply Hr'|exact Hy']. }
  split; [exact Hloc|]. split; [exact HM|]. split; [exact Hin|].
  split; [apply sort_by_perm|]. split.
  - unfold generate_mock_summary.
    rewrite (sort_values_rows df iy _ Hy). cbn [bind].
    rewrite sort_values_year_idem.
    rewrite (apply_window_rows df iy _ n m Hn Hy Hmax'). cbn [bind].
    rewrite filter_all; [reflexivity|].
    intros r Hr. apply year_gt_window. now apply Hin.
  - unfold analyze_location. now rewrite Hloc.
Qed.

(** ** Dictionaries: lookup after assignment *)

Section DictFacts.
Context {K V : Type} (eqb : K -> K -> bool).
Hypothesis eqb_eq : forall a b, eqb a b = true <-> a = b.

Lemma eqb_refl' (a : K) : eqb a a = true.
Proof using eqb_eq. now apply eqb_eq. Qed.

Lemma eqb_neq (a b : K) : a <> b -> eqb a b = false.
Proof using eqb_eq.
  intros H. destruct (eqb a b) eqn:E; [|reflexivity].
  now apply eqb_eq in E.
Qed.

Lemma dict_get_set_same (k : K) (v : V) (d : list (K * V)) :
  dict_get eqb k (dict_set eqb k v d) = Some v.
Proof using eqb_eq.
  induction d as [|[k' v'] t IH]; simpl.
  - now rewrite eqb_refl'.
  - destruct (eqb k' k) eqn:E; simpl; [now rewrite eqb_refl'|].
    now rewrite E.
Qed.

Lemma dict_get_set_other (k k' : K) (v : V) (d : list (K * V)) :
  k' <> k -> dict_get eqb k' (dict_set eqb k v d) = dict_get eqb k' d.
Proof using eqb_eq.
  intros Hne. induction d as [|[k0 v0] t IH]; simpl.
  - now rewrite eqb_neq by congruence.
  - destruct (eqb k0 k) eqn:E; simpl.
    + apply eqb_eq in E. subst k0.
      now rewrite !eqb_neq by congruence.
    + destruct (eqb k0 k'); [reflexivity|exact IH].
Qed.

Lemma dict_set_set (k : K) (v v' : V) (d : list (K * V)) :
  dict_set eqb k v' (dict_set eqb k v d) = dict_set eqb k v' d.
Proof using eqb_eq.
  induction d as [|[k0 v0] t IH]; simpl.
  - now rewrite eqb_refl'.
  - destruct (eqb k0 k) eqn:E; simpl.
    + now rewrite eqb_refl'.
    + rewrite E. now f_equal.
Qed.

Lemma dict_keys_set (k k' : K) (v : V) (d : list (K * V)) :
  In k' (dict_keys (dict_set eqb k v d)) <-> k' = k \/ In k' (dict_keys d).
Proof using eqb_eq.
  unfold dict_keys. induction d as [|[k0 v0] t IH]; simpl.
  - intuition.
  - destruct (eqb k0 k) eqn:E; simpl.
    + apply eqb_eq in E. subst k0. intuition.
    + rewrite IH. intuition.
Qed.

Lemma dict_set_nodup (k : K) (v : V) (d : list (K * V)) :
  NoDup (dict_keys d) -> NoDup (dict_keys (dict_set eqb k v d)).
Proof using eqb_eq.
  unfold dict_keys. induction d as [|[k0 v0] t IH]; simpl; intros H.
  - repeat constructor. intros [].
  - inversion H as [|? ? Hnin Hnd]; subst.
    destruct (eqb k0 k) eqn:E; simpl.
    + apply eqb_eq in E. subst k0. now constructor.
    + constructor; [|now apply IH].
      intros Hin. apply (dict_keys_set k k0 v t) in Hin.
      destruct Hin as [->|Hin]; [|contradiction].
      now rewrite eqb_refl' in E.
Qed.

Lemma dict_get_in (k : K) (v : V) (d : list (K * V)) :
  dict_get eqb k d = Some v -> In (k, v) d.
Proof using eqb_eq.
  induction d as [|[k0 v0] t IH]; simpl; [discriminate|].
  destruct (eqb k0 k) eqn:E.
  - apply eqb_eq in E. subst k0. intros [= ->]. now left.
  - auto.
Qed.

Lemma dict_in_get (k : K) (v : V) (d : list (K * V)) :
  NoDup (dict_keys d) -> In (k, v) d -> dict_get eqb k d = Some v.
Proof using eqb_eq.
  unfold dict_keys. induction d as [|[k0 v0] t IH]; simpl; [tauto|].
  intros H Hin. inversion H as [|? ? Hnin Hnd]; subst.
  destruct Hin as [[= -> ->]|Hin].
  - now rewrite eqb_refl'.
  - destruct (eqb k0 k) eqn:E; [|now apply IH].
    apply eqb_eq in E. subst k0. exfalso. apply Hnin.
    now apply (in_map fst) in Hin.
Qed.

Lemma dict_get_keys (k : K) (d : list (K * V)) :
  dict_get eqb k d <> None <-> In k (dict_keys d).
Proof using eqb_eq.
  unfold dict_keys. induction d as [|[k0 v0] t IH]; simpl; [tauto|].
  destruct (eqb k0 k) eqn:E.
  - apply eqb_eq in E. subst k0. split; [auto|discriminate].
  - rewrite IH. split; [auto|]. intros [->|H]; [|assumption].
    now rewrite eqb_refl' in E.
Qed.

End DictFacts.

Lemma rec_get_set_same (k : string) (v : cell) (r : record) :
  rec_get k (rec_set k v r) = Some v.
Proof. apply dict_get_set_same, String.eqb_eq. Qed.

Lemma rec_get_set_other (k k' : string) (v : cell) (r : record) :
  k' <> k -> rec_get k' (rec_set k v r) = rec_get k' r.
Proof. apply dict_get_set_other, String.eqb_eq. Qed.

Lemma rec_get_apply (k : string) (ws : writes) (r : record) :
  rec_get k (apply_writes ws r)
  = match last_write k ws with
    | Some v => Some v
    | None => rec_get k r
    end.
Proof.
  unfold apply_writes. revert r.
  induction ws as [|[k' v] t IH]; intros r; simpl; [reflexivity|].
  rewrite IH. destruct (last_write k t); [reflexivity|].
  destruct (String.eqb k' k) eqn:E.
  - apply String.eqb_eq in E. subst. apply rec_get_set_same.
  - apply rec_get_set_other. intros ->. now rewrite String.eqb_refl in E.
Qed.

Lemma last_write_in (k : string) (ws : writes) (v : cell) :
  last_write k ws = Some v -> In (k, v) ws.
Proof.
  induction ws as [|[k' v'] t IH]; simpl; [discriminate|].
  destruct (last_write k t).
  - intros [= ->]. auto.
  - destruct (String.eqb k' k) eqn:E; [|discriminate].
    apply String.eqb_eq in E. subst. intros [= ->]. now left.
Qed.

Lemma last_write_none (k : string) (ws : writes) :
  (forall v, ~ In (k, v) ws) -> last_write k ws = None.
Proof.
  intros H. destruct (last_write k ws) eqn:E; [|reflexivity].
  now apply last_write_in, H in E.
Qed.

(** ** The loop over the year groups is a replay of writes *)

Lemma Z_eqb_eq (a b : Z) : (a =? b) = true <-> a = b.
Proof. apply Z.eqb_eq. Qed.

Lemma set_field_present (y : Z) (k : string) (v : cell) (ym : year_map)
  (r : record) :
  dict_get Z.eqb y ym = Some r ->
  set_field y k v ym = Ok (dict_set Z.eqb y (rec_set k v r) ym).
Proof. unfold set_field. now intros ->. Qed.

Lemma ensure_record (y : Z) (ym : year_map) :
  let ym1 := if dict_mem Z.eqb y ym then ym
             else dict_set Z.eqb y (fresh_record y) ym in
  dict_get Z.eqb y ym1 = Some (record_or_fresh ym y)
  /\ forall r, dict_set Z.eqb y r ym1 = dict_set Z.eqb y r ym.
Proof.
  unfold dict_mem, record_or_fresh.
  destruct (dict_get Z.eqb y ym) as [r0|] eqn:E; cbn zeta.
  - now split.
  - split.
    + apply dict_get_set_same, Z_eqb_eq.
    + intros r. apply dict_set_set, Z_eqb_eq.
Qed.

Lemma chart_entry_put (qt : query_type) (loc : string)
  (price_cols : list string) (area : dataframe) (ym : year_map) (y : Z)
  (g : list row) :
  chart_entry qt loc price_cols area ym (y, g)
  = (ws <- entry_writes qt loc price_cols area g ;; Ok (put ym (y, ws))).
Proof.
  unfold chart_entry, entry_writes, demand_write, price_write, put.
  destruct (ensure_record y ym) as [Hget Hset].
  set (ym1 := if dict_mem Z.eqb y ym then ym
              else dict_set Z.eqb y (fresh_record y) ym) in *.
  set (r0 := record_or_fresh ym y) in *.
  cbn [fst snd].
  destruct qt; cbn [wants_demand wants_price bind].
  - destruct (col_index "demand" area) as [idem|]; cbn [bind]; [|reflexivity].
    destruct (series_sum _) as [total|]; cbn [bind]; [|reflexivity].
    destruct (py_int total) as [n|]; cbn [bind]; [|reflexivity].
    rewrite (set_field_present _ _ _ _ _ Hget). cbn [bind app].
    now rewrite Hset.
  - destruct (group_avg_price area price_cols g) as [avg|]; cbn [bind];
      [|reflexivity].
    rewrite (set_field_present _ _ _ _ _ Hget). cbn [app].
    now rewrite Hset.
  - destruct (col_index "demand" area) as [idem|]; cbn [bind]; [|reflexivity].
    destruct (series_sum _) as [total|]; cbn [bind]; [|reflexivity].
    destruct (py_int total) as [n|]; cbn [bind]; [|reflexivity].
    rewrite (set_field_present _ _ _ _ _ Hget). cbn [bind].
    destruct (group_avg_price area price_cols g) as [avg|]; cbn [bind];
      [|reflexivity].
    rewrite (set_field_present y _ _ _ (rec_set (title loc) (CInt n) r0)).
    + cbn [app]. f_equal. rewrite Hset.
      apply dict_set_set, Z_eqb_eq.
    + apply dict_get_set_same, Z_eqb_eq.
Qed.

Lemma chart_loop_replay (qt : query_type) (loc : string)
  (price_cols : list string) (area : dataframe)
  (groups : list (Z * list row)) (ym : year_map) :
  foldM (chart_entry qt loc price_cols area) groups ym
  = (ops <- group_ops qt loc price_cols area groups ;;
     Ok (fold_left put ops ym)).
Proof.
  unfold group_ops. revert ym.
  induction groups as [|[y g] t IH]; intros ym; [reflexivity|].
  cbn [foldM mapM fst snd]. rewrite chart_entry_put.
  destruct (entry_writes qt loc price_cols area g) as [ws|]; cbn [bind];
    [|reflexivity].
  rewrite IH. now destruct (mapM _ t).
Qed.

(** ** What the replayed writes leave in [year_map] *)

Lemma dict_get_put (ym : year_map) (y y' : Z) (ws : writes) :
  dict_get Z.eqb y' (put ym (y, ws))
  = if y' =? y then Some (apply_writes ws (record_or_fresh ym y))
    else dict_get Z.eqb y' ym.
Proof.
  unfold put. cbn [fst snd]. destruct (y' =? y) eqn:E.
  - apply Z.eqb_eq in E. subst. apply dict_get_set_same, Z_eqb_eq.
  - apply dict_get_set_other; [apply Z_eqb_eq|]. intros ->.
    now rewrite Z.eqb_refl in E.
Qed.

Lemma fresh_get (y : Z) (k : string) :
  rec_get k (fresh_record y)
  = if String.eqb "year" k then Some (CInt y) else None.
Proof. reflexivity. Qed.

Lemma field_put (ym : year_map) (y y' : Z) (ws : writes) (k : string) :
  field (put ym (y, ws)) y' k
  = if y' =? y then
      match last_write k ws with
      | Some v => Some v
      | None =>
          match dict_get Z.eqb y ym with
          | Some _ => field ym y k
          | None => if String.eqb "year" k then Some (CInt y) else None
          end
      end
    else field ym y' k.
Proof.
  unfold field at 1. rewrite dict_get_put. destruct (y' =? y); [|reflexivity].
  rewrite rec_get_apply. destruct (last_write k ws); [reflexivity|].
  unfold record_or_fresh, field.
  destruct (dict_get Z.eqb y ym); [reflexivity|apply fresh_get].
Qed.

Lemma last_write_some (k : string) (ws : writes) (v : cell) :
  In (k, v) ws -> exists v', last_write k ws = Some v'.
Proof. clear ratio.
  induction ws as [|[k' v'] t IH]; simpl; [tauto|].
  intros [[= -> ->]|Hin].
  - destruct (last_write k t); [eauto|]. rewrite String.eqb_refl. eauto.
  - destruct (IH Hin) as [w ->]. eauto.
Qed.

Lemma last_write_functional (k : string) (ws : writes) (v : cell) :
  functional ws -> In (k, v) ws -> last_write k ws = Some v.
Proof.
  intros Hf Hin. destruct (last_write_some _ _ _ Hin) as [v' Hv'].
  rewrite Hv'. f_equal. eapply Hf; [|exact Hin]. now apply last_write_in.
Qed.

Lemma chart_inv_empty : chart_inv [] [].
Proof. clear ratio.
  constructor; cbn.
  - constructor.
  - intros y. split; [congruence|]. now intros [e [[] _]].
  - discriminate.
  - tauto.
  - congruence.
Qed.

Lemma chart_inv_step (L P : list entry) (ym : year_map) (e : entry) :
  compatible L -> In e L -> (forall e0, In e0 P -> In e0 L) ->
  chart_inv P ym -> chart_inv (P ++ [e]) (put ym (untag e)).
Proof.
  intros [Hcomp Hwf] He HP [Hnd Hyears Honly Hall Hyear].
  destruct (Hwf e He) as [Hfun Hnoyear].
  unfold untag. constructor.
  - apply dict_set_nodup; [apply Z_eqb_eq|assumption].
  - intros y. rewrite dict_get_put.
    destruct (y =? e_year e) eqn:E.
    + apply Z.eqb_eq in E. split; [|discriminate].
      intros _. exists e. split; [apply in_or_app; right; now left|congruence].
    + rewrite Hyears. split.
      * intros [e0 [Hin Hy]]. exists e0. split; [|assumption].
        apply in_or_app. now left.
      * intros [e0 [Hin Hy]]. apply in_app_or in Hin.
        destruct Hin as [Hin|[<-|[]]]; [eauto|].
        subst y. now rewrite Z.eqb_refl in E.
  - intros y k v. rewrite field_put.
    destruct (y =? e_year e) eqn:E.
    + apply Z.eqb_eq in E. subst y.
      destruct (last_write k (e_ws e)) as [v'|] eqn:Elw.
      * intros [= ->]. right. exists e. split; [apply in_or_app; right; now left|].
        split; [reflexivity|now apply last_write_in].
      * destruct (dict_get Z.eqb (e_year e) ym) eqn:Eg.
        -- intros Hf. destruct (Honly _ _ _ Hf) as [?|[e0 [Hin [Hy Hk]]]]; [now left|].
           right. exists e0. split; [apply in_or_app; now left|now split].
        -- destruct (String.eqb "year" k) eqn:Ek; [|discriminate].
           apply String.eqb_eq in Ek. intros [= <-]. now left.
    + intros Hf. destruct (Honly _ _ _ Hf) as [?|[e0 [Hin [Hy Hk]]]]; [now left|].
      right. exists e0. split; [apply in_or_app; now left|now split].
  - intros e0 k v Hin Hk. rewrite field_put.
    apply in_app_or in Hin. destruct Hin as [Hin|[<-|[]]].
    + destruct (e_year e0 =? e_year e) eqn:E; [|now apply Hall].
      apply Z.eqb_eq in E.
      destruct (Hcomp e0 e (HP _ Hin) He E) as [Hsame|Hdis].
      * rewrite <- Hsame in *. now rewrite (last_write_functional k _ v).
      * rewrite last_write_none by (intros v' Hv'; exact (Hdis _ _ _ Hk Hv')).
        assert (Hmem : dict_get Z.eqb (e_year e) ym <> None)
          by (apply Hyears; eauto).
        destruct (dict_get Z.eqb (e_year e) ym); [|congruence].
        rewrite <- E. now apply Hall.
    + rewrite Z.eqb_refl. now rewrite (last_write_functional k _ v).
  - intros y. rewrite dict_get_put, field_put.
    destruct (y =? e_year e) eqn:E; [|apply Hyear].
    apply Z.eqb_eq in E. subst y. intros _.
    rewrite last_write_none by apply Hnoyear.
    destruct (dict_get Z.eqb (e_year e) ym) eqn:Eg; [|reflexivity].
    apply Hyear. congruence.
Qed.

Lemma chart_inv_replay (L : list entry) :
  compatible L ->
  forall (ops P : list entry) (ym : year_map),
    (forall e, In e (P ++ ops) -> In e L) ->
    chart_inv P ym ->
    chart_inv (P ++ ops) (fold_left put (map untag ops) ym).
Proof.
  intros Hc. induction ops as [|e t IH]; intros P ym Hsub Hinv.
  - now rewrite app_nil_r.
  - cbn [map fold_left].
    replace (P ++ e :: t)%list with ((P ++ [e]) ++ t)%list
      by (now rewrite <- app_assoc).
    apply IH.
    + intros e0 H. apply Hsub. now rewrite <- app_assoc in H.
    + apply (chart_inv_step L); auto.
      * apply Hsub, in_or_app. right. now left.
      * intros e0 H. apply Hsub, in_or_app. now left.
Qed.

(** ** Title case: the chart keys of distinct locations are distinct *)

Lemma to_lower_upper (c : ascii) : to_lower (to_upper c) = to_lower c.
Proof. each_char c. Qed.

Lemma is_cased_lower (c : ascii) : is_cased (to_lower c) = is_cased c.
Proof. each_char c. Qed.

Lemma is_cased_upper (c : ascii) : is_cased (to_upper c) = is_cased c.
Proof. each_char c. Qed.

Lemma is_lower_upper (c : ascii) : is_lower (to_upper c) = false.
Proof. each_char c. Qed.

Lemma to_upper_not_y (c : ascii) : to_upper c <> "y"%char.
Proof. destruct c as [[] [] [] [] [] [] [] []]; discriminate. Qed.

Lemma lower_title_from (b : bool) (s : string) :
  lower (title_from b s) = lower s.
Proof.
  revert b. induction s as [|c t IH]; intros b; [reflexivity|].
  cbn [title_from]. unfold lower in *. cbn [str_map]. rewrite IH.
  destruct b; now rewrite ?to_lower_idem, ?to_lower_upper.
Qed.

Lemma title_injective (a b : string) :
  lower a = a -> lower b = b -> title a = title b -> a = b.
Proof.
  intros Ha Hb H. apply (f_equal lower) in H.
  unfold title in H. rewrite !lower_title_from in H. congruence.
Qed.

Lemma title_from_titled (b : bool) (s : string) :
  titled (negb b) (title_from b s) = true.
Proof.
  revert b. induction s as [|c t IH]; intros b; [reflexivity|].
  cbn [title_from titled].
  destruct b; cbn [negb].
  - rewrite is_cased_lower. exact (IH (is_cased c)).
  - rewrite is_lower_upper, is_cased_upper. exact (IH (is_cased c)).
Qed.

Lemma price_suffix_not_titled (x : string) (f : bool) :
  titled f (x ++ "_price") = false.
Proof.
  revert f. induction x as [|c t IH]; intros f.
  - now destruct f.
  - cbn [append titled]. rewrite IH. apply andb_false_r.
Qed.

Lemma title_not_price_key (a b : string) : title a <> title b ++ "_price".
Proof.
  intros H. pose proof (title_from_titled false a) as Ha.
  unfold title in H. rewrite H in Ha.
  now rewrite price_suffix_not_titled in Ha.
Qed.

Lemma title_not_year (a : string) : title a <> "year".
Proof.
  destruct a as [|c t]; [discriminate|]. unfold title. cbn [title_from].
  intros [= H _]. now apply to_upper_not_y in H.
Qed.

Lemma price_key_not_year (a : string) : title a ++ "_price" <> "year".
Proof.
  destruct a as [|c t]; [discriminate|]. unfold title. cbn [title_from append].
  intros [= H _]. now apply to_upper_not_y in H.
Qed.

Lemma append_length (a b : string) :
  String.length (a ++ b) = (String.length a + String.length b)%nat.
Proof. induction a; simpl; congruence. Qed.

Lemma append_cancel_r (a b s : string) : a ++ s = b ++ s -> a = b.
Proof.
  revert b. induction a as [|c t IH]; intros [|d u] H.
  - reflexivity.
  - apply (f_equal String.length) in H. cbn [append] in H.
    cbn [String.length] in H. rewrite append_length in H. lia.
  - apply (f_equal String.length) in H. cbn [append] in H.
    cbn [String.length] in H. rewrite append_length in H. lia.
  - cbn [append] in H. injection H as Hc H. subst d. f_equal. now apply IH.
Qed.

Lemma chart_keys_apart (a b k : string) :
  lower a = a -> lower b = b -> chart_key a k -> chart_key b k -> a = b.
Proof.
  intros Ha Hb [-> | ->] [H | H].
  - now apply title_injective.
  - now apply title_not_price_key in H.
  - symmetry in H. now apply title_not_price_key in H.
  - apply append_cancel_r in H. now apply title_injective.
Qed.

Lemma chart_key_not_year (a : string) : ~ chart_key a "year".
Proof.
  intros [H|H]; symmetry in H;
    [now apply title_not_year in H|now apply price_key_not_year in H].
Qed.

(** ** Year groups *)

Lemma insert_key_in (y k : Z) (ks : list Z) :
  In k (insert_key y ks) <-> k = y \/ In k ks.
Proof.
  induction ks as [|a t IH]; simpl; [intuition|].
  destruct (y <? a); [simpl; intuition|].
  destruct (y =? a) eqn:E.
  - apply Z.eqb_eq in E. subst. simpl. intuition.
  - simpl. rewrite IH. intuition.
Qed.

Lemma insert_key_sorted (y : Z) (ks : list Z) :
  StronglySorted Z.lt ks -> StronglySorted Z.lt (insert_key y ks).
Proof.
  induction 1 as [|a t Ht IH Ha]; simpl; [repeat constructor|].
  destruct (y <? a) eqn:E1.
  - apply Z.ltb_lt in E1. constructor; [now constructor|].
    constructor; [assumption|].
    eapply Forall_impl; [|exact Ha]. intros b Hb. cbn beta in Hb. lia.
  - destruct (y =? a) eqn:E2; [now constructor|].
    apply Z.ltb_ge in E1. apply Z.eqb_neq in E2.
    constructor; [assumption|].
    apply Forall_forall. intros b Hb. apply insert_key_in in Hb.
    destruct Hb as [->|Hb]; [lia|].
    now apply (proj1 (Forall_forall _ _) Ha).
Qed.

Lemma group_keys_in (iy : nat) (rs : list row) (y : Z) :
  In y (group_keys iy rs) <-> exists r, In r rs /\ year_at iy r = Some y.
Proof.
  induction rs as [|r t IH]; simpl.
  - split; [tauto|]. now intros [r [[] _]].
  - destruct (year_at iy r) as [z|] eqn:E.
    + rewrite insert_key_in, IH. split.
      * intros [->|[r' [Hin Hr']]]; eauto.
      * intros [r' [[<-|Hin] Hr']]; [left; congruence|eauto].
    + rewrite IH. split.
      * intros [r' [Hin Hr']]. eauto.
      * intros [r' [[<-|Hin] Hr']]; [congruence|eauto].
Qed.

Lemma group_keys_sorted (iy : nat) (rs : list row) :
  StronglySorted Z.lt (group_keys iy rs).
Proof.
  induction rs as [|r t IH]; simpl; [constructor|].
  destruct (year_at iy r); [now apply insert_key_sorted|assumption].
Qed.

Lemma mapM_in {A B : Type} (f : A -> result B) (l : list A) (l' : list B) :
  mapM f l = Ok l' ->
  (forall b, In b l' <-> exists a, In a l /\ f a = Ok b)
  /\ (forall a, In a l -> exists b, f a = Ok b).
Proof.
  intros H. apply mapM_Forall2 in H.
  induction H as [|a b t t' Hab _ [IH1 IH2]]; simpl.
  - split; [|tauto]. intros b. split; [tauto|]. now intros [a [[] _]].
  - split.
    + intros b0. rewrite IH1. split.
      * intros [<-|[a0 [Hin Ha0]]]; eauto.
      * intros [a0 [[<-|Hin] Ha0]]; [left; congruence|eauto].
    + intros a0 [<-|Hin]; eauto.
Qed.

Lemma group_ops_in (qt : query_type) (loc : string) (price_cols : list string)
  (area : dataframe) (iy : nat) (ops : list (Z * writes)) :
  group_ops qt loc price_cols area (groupby_year iy (rows area)) = Ok ops ->
  (forall y ws, In (y, ws) ops <->
     has_rows_in iy area y
     /\ entry_writes qt loc price_cols area (year_group iy area y) = Ok ws)
  /\ (forall y, has_rows_in iy area y ->
        exists ws, entry_writes qt loc price_cols area (year_group iy area y)
                   = Ok ws).
Proof.
  unfold group_ops, groupby_year, has_rows_in, year_group. intros H.
  apply mapM_in in H. destruct H as [H1 H2]. split.
  - intros y ws. rewrite H1. split.
    + intros [[y' g] [Hin Hf]]. apply in_map_iff in Hin.
      destruct Hin as [y0 [[= <- <-] Hy0]]. cbn [fst snd] in Hf.
      apply bind_ok in Hf. destruct Hf as [ws' [Hws [= <- <-]]].
      split; [now apply group_keys_in|assumption].
    + intros [Hy Hws]. exists (y, filter (has_year iy y) (rows area)).
      split; [apply in_map_iff; exists y; split;
                [reflexivity|now apply group_keys_in]|].
      cbn [fst snd]. now rewrite Hws.
  - intros y Hy.
    destruct (H2 (y, filter (has_year iy y) (rows area))) as [[y' ws] Hf].
    + apply in_map_iff. exists y. split; [reflexivity|now apply group_keys_in].
    + cbn [fst snd] in Hf. apply bind_ok in Hf.
      destruct Hf as [ws' [Hws _]]. eauto.
Qed.

Lemma apply_window_columns (last_n : option Z) (area area' : dataframe) :
  apply_window last_n area = Ok area' -> columns area' = columns area.
Proof.
  unfold apply_window. destruct last_n as [n|]; [|now intros [= <-]].
  destruct (n =? 0); [now intros [= <-]|].
  intros H. bind_inv H. bind_inv H. now injection H as <-.
Qed.

Lemma sort_values_columns (area area' : dataframe) :
  sort_values area = Ok area' -> columns area' = columns area.
Proof. unfold sort_values. intros H. bind_inv H. now injection H as <-. Qed.

Lemma location_area_columns (df : dataframe) (iloc : nat) (last_n : option Z)
  (loc : string) (area : dataframe) :
  location_area df iloc last_n loc = Ok area -> columns area = columns df.
Proof.
  unfold location_area. intros H. bind_inv H.
  apply apply_window_columns in Hx. apply sort_values_columns in H.
  cbn [columns] in Hx. congruence.
Qed.

Lemma col_index_same (label : string) (df df' : dataframe) :
  columns df' = columns df -> col_index label df' = col_index label df.
Proof. unfold col_index. now intros ->. Qed.

(** ** The loop over the matched locations yields a log of writes *)

Section Loop.
Variables (df : dataframe) (iloc iy : nat) (price_cols : list string).
Variables (last_n : option Z) (qt : query_type).

Hypothesis Hyear : col_index "year" df = Ok iy.

Lemma analyze_location_chart (acc acc' : loop_state) (loc : string) :
  analyze_location df iloc price_cols last_n qt acc loc = Ok acc' ->
  exists area ops,
    location_area df iloc last_n loc = Ok area
    /\ group_ops qt loc price_cols area (groupby_year iy (rows area)) = Ok ops
    /\ snd acc' = fold_left put ops (snd acc).
Proof using Hyear.
  unfold analyze_location, analyze_area. intros H.
  apply bind_ok in H. destruct H as [area [Harea H]].
  destruct acc as [[td sm] ym].
  apply bind_ok in H. destruct H as [text [_ H]].
  apply bind_ok in H. destruct H as [iy' [Hiy H]].
  rewrite (col_index_same "year" df area) in Hiy
    by (eapply location_area_columns; eassumption).
  rewrite Hyear in Hiy. injection Hiy as <-.
  rewrite chart_loop_replay in H.
  apply bind_ok in H. destruct H as [ym' [Hym H]].
  apply bind_ok in Hym. destruct Hym as [ops [Hops [= <-]]].
  apply bind_ok in H. destruct H as [recs [_ [= <-]]].
  exists area, ops. now repeat split.
Qed.

Lemma loop_log (found : list string) :
  forall acc acc',
    foldM (analyze_location df iloc price_cols last_n qt) found acc = Ok acc' ->
    exists L, snd acc' = fold_left put (map untag L) (snd acc)
              /\ log_of df iloc iy price_cols last_n qt found L.
Proof using Hyear.
  induction found as [|loc t IH]; intros acc acc' H.
  - injection H as <-. exists []. split; [reflexivity|]. split.
    + intros e. split; [intros []|now intros [[] _]].
    + intros loc [].
  - cbn [foldM] in H. apply bind_ok in H. destruct H as [acc1 [H1 H]].
    destruct (analyze_location_chart _ _ _ H1) as [area [ops [Ha [Hops Hym]]]].
    destruct (IH _ _ H) as [L2 [Hym2 [Hlog Hall]]].
    destruct (group_ops_in _ _ _ _ _ _ Hops) as [Hin Hex].
    exists (map (fun op => (loc, fst op, snd op)) ops ++ L2)%list.
    split; [|split].
    + rewrite map_app, fold_left_app, map_map. cbn [untag e_year e_ws fst snd].
      rewrite Hym2, Hym. f_equal. f_equal.
      rewrite <- (map_id ops) at 1. apply map_ext. now intros [y ws].
    + intros e. rewrite in_app_iff, Hlog, in_map_iff. split.
      * intros [[[y ws] [<- Hop]]|[Ht He]].
        -- cbn [e_loc fst snd]. split; [now left|].
           exists area. cbn [e_loc e_year e_ws fst snd].
           apply Hin in Hop. now split.
        -- split; [now right|assumption].
      * intros [[Hl|Ht] He]; [|right; now split].
        left. destruct e as [[l y] ws]. cbn [e_loc fst] in Hl. subst l.
        exists (y, ws). split; [reflexivity|].
        destruct He as [area' [Ha' [Hy Hw]]]. cbn [e_loc e_year e_ws fst snd] in *.
        rewrite Ha in Ha'. injection Ha' as <-. apply Hin. now split.
    + intros l [<-|Hl]; [|now apply Hall].
      exists area. split; [assumption|exact Hex].
Qed.

Lemma entry_writes_shape (loc : string) (area : dataframe) (g : list row)
  (ws : writes) :
  entry_writes qt loc price_cols area g = Ok ws ->
  exists d p,
    ws = (d ++ p)%list
    /\ demand_write qt loc area g = Ok d
    /\ price_write qt loc price_cols area g = Ok p
    /\ (d = [] \/ exists v, d = [(title loc, v)])
    /\ (p = [] \/ exists v, p = [(title loc ++ "_price", v)]).
Proof.
  unfold entry_writes. intros H.
  apply bind_ok in H. destruct H as [d [Hd H]].
  apply bind_ok in H. destruct H as [p [Hp [= <-]]].
  exists d, p. repeat split; try assumption.
  - unfold demand_write in Hd. destruct (wants_demand qt); [|injection Hd; auto].
    bind_inv Hd. bind_inv Hd. bind_inv Hd. injection Hd as <-. eauto.
  - unfold price_write in Hp. destruct (wants_price qt); [|injection Hp; auto].
    bind_inv Hp. injection Hp as <-. eauto.
Qed.

Lemma entry_writes_keys (loc : string) (area : dataframe) (g : list row)
  (ws : writes) (k : string) (v : cell) :
  entry_writes qt loc price_cols area g = Ok ws ->
  In (k, v) ws -> chart_key loc k.
Proof.
  intros H Hin. destruct (entry_writes_shape _ _ _ _ H)
    as [d [p [-> [_ [_ [Hd Hp]]]]]].
  apply in_app_or in Hin. destruct Hin as [Hin|Hin].
  - destruct Hd as [->|[v' ->]]; [destruct Hin|].
    destruct Hin as [[= <- _]|[]]. now left.
  - destruct Hp as [->|[v' ->]]; [destruct Hin|].
    destruct Hin as [[= <- _]|[]]. now right.
Qed.

Lemma entry_writes_functional (loc : string) (area : dataframe) (g : list row)
  (ws : writes) :
  entry_writes qt loc price_cols area g = Ok ws -> functional ws.
Proof.
  intros H. destruct (entry_writes_shape _ _ _ _ H)
    as [d [p [-> [_ [_ [Hd Hp]]]]]].
  assert (Hcase : forall k v, In (k, v) (d ++ p) ->
            (k = title loc /\ d = [(title loc, v)])
            \/ (k = title loc ++ "_price" /\ p = [(title loc ++ "_price", v)])).
  { intros k v Hin. apply in_app_or in Hin. destruct Hin as [Hin|Hin].
    - destruct Hd as [->|[w ->]]; [destruct Hin|].
      destruct Hin as [[= <- <-]|[]]. now left.
    - destruct Hp as [->|[w ->]]; [destruct Hin|].
      destruct Hin as [[= <- <-]|[]]. now right. }
  intros k v v' H1 H2.
  destruct (Hcase _ _ H1) as [[Hk1 E1]|[Hk1 E1]],
           (Hcase _ _ H2) as [[Hk2 E2]|[Hk2 E2]].
  - rewrite E1 in E2. now injection E2.
  - rewrite Hk1 in Hk2. now apply title_not_price_key in Hk2.
  - rewrite Hk2 in Hk1. now apply title_not_price_key in Hk1.
  - rewrite E1 in E2. now injection E2.
Qed.

Lemma log_compatible (found : list string) (L : list entry) :
  (forall loc, In loc found -> lower loc = loc) ->
  log_of df iloc iy price_cols last_n qt found L -> compatible L.
Proof.
  intros Hlow [Hlog _]. split.
  - intros e e' He He' Hy.
    apply Hlog in He, He'.
    destruct He as [Hf [area [Ha [_ Hw]]]].
    destruct He' as [Hf' [area' [Ha' [_ Hw']]]].
    destruct (string_dec (e_loc e) (e_loc e')) as [Hl|Hl].
    + left. rewrite Hl, Hy in *. rewrite Ha in Ha'. injection Ha' as <-.
      congruence.
    + right. intros k v v' Hk Hk'. apply Hl.
      apply (chart_keys_apart _ _ k); auto.
      * eapply entry_writes_keys; eassumption.
      * eapply entry_writes_keys; eassumption.
  - intros e He. apply Hlog in He.
    destruct He as [_ [area [_ [_ Hw]]]]. split.
    + eapply entry_writes_functional, Hw.
    + intros v Hin. eapply chart_key_not_year, entry_writes_keys; eassumption.
Qed.

End Loop.

(** ** The sorted chart series *)

Lemma keyed_all (ym : year_map) :
  (forall y rec, In (y, rec) ym -> rec_get "year" rec = Some (CInt y)) ->
  mapM keyed_by_year (dict_values ym) = Ok ym.
Proof.
  unfold dict_values. induction ym as [|[y rec] t IH]; intros H; [reflexivity|].
  cbn [map mapM snd]. unfold keyed_by_year at 1.
  rewrite (H y rec) by now left. cbn [bind].
  rewrite IH; [reflexivity|]. intros y' rec' Hin. apply H. now right.
Qed.

Lemma sorted_le_lt (s : list (Z * record)) :
  StronglySorted (fun a b => le_fst a b = true) s ->
  NoDup (map fst s) -> StronglySorted Z.lt (map fst s).
Proof.
  induction 1 as [|a t Ht IH Ha]; cbn [map]; intros Hnd; [constructor|].
  inversion Hnd as [|? ? Hnin Hnd']; subst.
  constructor; [now apply IH|].
  apply Forall_forall. intros y Hy. apply in_map_iff in Hy.
  destruct Hy as [b [<- Hb]].
  pose proof (proj1 (Forall_forall _ _) Ha b Hb) as Hle.
  unfold le_fst in Hle. apply Z.leb_le in Hle.
  assert (fst a <> fst b) by (intros E; apply Hnin; rewrite E; now apply in_map).
  lia.
Qed.

Lemma chart_of_year_map (P : list entry) (ym : year_map) (chart : list record) :
  chart_inv P ym ->
  sorted_by_year (dict_values ym) = Ok chart ->
  (forall y rec, chart_record chart y rec <-> dict_get Z.eqb y ym = Some rec)
  /\ exists years,
       map (rec_get "year") chart = map (fun y => Some (CInt y)) years
       /\ StronglySorted Z.lt years
       /\ forall y, In y years <-> dict_get Z.eqb y ym <> None.
Proof.
  intros [Hnd Hyears Honly Hall Hyear] H.
  assert (Hkey : forall y rec, In (y, rec) ym ->
                   rec_get "year" rec = Some (CInt y)).
  { intros y rec Hin.
    pose proof (dict_in_get Z.eqb Z_eqb_eq _ _ _ Hnd Hin) as Hg.
    specialize (Hyear y). unfold field in Hyear. rewrite Hg in Hyear.
    apply Hyear. discriminate. }
  unfold sorted_by_year in H. rewrite (keyed_all _ Hkey) in H.
  cbn [bind] in H. injection H as <-.
  fold le_fst. set (S := sort_by le_fst ym).
  assert (HS : Permutation S ym) by apply sort_by_perm.
  assert (HinS : forall p, In p S <-> In p ym).
  { intros p. split; apply Permutation_in; [assumption|now apply Permutation_sym]. }
  split.
  - intros y rec. unfold chart_record. split.
    + intros [Hin Hy]. apply in_map_iff in Hin.
      destruct Hin as [[y' rec'] [Hsnd Hin]]. cbn [snd] in Hsnd. subst rec'.
      apply HinS in Hin. pose proof (Hkey _ _ Hin) as Hy'.
      rewrite Hy in Hy'. injection Hy' as ->.
      now apply dict_in_get; [apply Z_eqb_eq| |].
    + intros Hg. apply dict_get_in in Hg; [|apply Z_eqb_eq].
      split; [|now apply Hkey].
      apply in_map_iff. exists (y, rec). split; [reflexivity|now apply HinS].
  - exists (map fst S). split; [|split].
    + rewrite !map_map. apply map_ext_in. intros [y rec] Hin.
      cbn [fst snd]. apply Hkey. now apply HinS.
    + apply sorted_le_lt.
      * apply sort_by_sorted; unfold le_fst.
        -- intros a b. rewrite !Z.leb_le. lia.
        -- intros a b c. rewrite !Z.leb_le. lia.
      * eapply Permutation_NoDup; [|exact Hnd].
        apply Permutation_sym. unfold dict_keys. now apply Permutation_map.
    + intros y. rewrite (dict_get_keys Z.eqb Z_eqb_eq). unfold dict_keys.
      split; intros Hin; apply in_map_iff in Hin;
        destruct Hin as [p [Hp Hin]]; apply in_map_iff; exists p;
        (split; [assumption|now apply HinS]).
Qed.

(** ** Matched locations are values of the table *)

Lemma unique_from_in (seen cs : list cell) (c : cell) :
  In c (unique_from seen cs) -> In c cs.
Proof. clear row_sum.
  revert seen. induction cs as [|a t IH]; intros seen; simpl; [tauto|].
  destruct (existsb (cell_eqb a) seen); [eauto|].
  intros [->|H]; eauto.
Qed.

Lemma find_locs_in (query : string) (cs : list cell) (found : list string)
  (loc : string) :
  find_locs query cs = Ok found -> In loc found -> In (CStr loc) cs.
Proof.
  revert found. induction cs as [|c t IH]; intros found H Hin.
  - injection H as <-. destruct Hin.
  - cbn [find_locs] in H. destruct c as [|z|f|s]; try discriminate.
    destruct (mentioned query s).
    + apply bind_ok in H. destruct H as [rest [Hrest [= <-]]].
      destruct Hin as [->|Hin]; [now left|right; eauto].
    + right. eauto.
Qed.

Lemma found_lower (df : dataframe) (iloc : nat) (query : string)
  (found : list string) (loc : string) :
  table_ok df ->
  col_index "final_location" df = Ok iloc ->
  find_locs query (unique (dropna (map (cell_at iloc) (rows df)))) = Ok found ->
  In loc found -> lower loc = loc.
Proof.
  intros [_ [Hok _]] Hi Hf Hin.
  apply (find_locs_in _ _ _ _ Hf) in Hin.
  apply unique_from_in in Hin. unfold dropna in Hin.
  apply filter_In in Hin. destruct Hin as [Hin _].
  apply in_map_iff in Hin. destruct Hin as [r [Hr Hin]].
  apply col_index_of in Hi. specialize (Hok _ Hi).
  pose proof (proj1 (Forall_forall _ _) Hok r Hin) as [s [Hs [Hl _]]].
  congruence.
Qed.

(** ** The chart series of a successful analysis *)

Lemma mapM_ext {A B : Type} (f g : A -> result B) (l : list A) :
  (forall a, f a = g a) -> mapM f l = mapM g l.
Proof. intros H. induction l as [|a t IH]; simpl; [reflexivity|]. now rewrite H, IH. Qed.

Section Chart.
Variables (df : dataframe) (area_field : option string).
Variables (sm : list summary_entry) (chart td : list record).
Variables (iloc iy : nat) (found : list string).

Local Abbreviation query := (query_of area_field).
Local Abbreviation last_n := (extract_last_n (query_of area_field)).
Local Abbreviation qt := (classify (query_of area_field)).
Local Abbreviation price_cols := (detect_price_cols df).

Hypothesis Hok : table_ok df.
Hypothesis Hres :
  analyze_df df area_field = Ok (mkResponse (Analysis sm chart td) 200).
Hypothesis Hloc : col_index "final_location" df = Ok iloc.
Hypothesis Hyear : col_index "year" df = Ok iy.
Hypothesis Hfound :
  find_locs query (unique (dropna (map (cell_at iloc) (rows df)))) = Ok found.

Lemma chart_facts :
  exists ym L,
    chart_inv L ym
    /\ log_of df iloc iy price_cols last_n qt found L
    /\ sorted_by_year (dict_values ym) = Ok chart.
Proof using Hok Hres Hloc Hyear Hfound.
  pose proof Hres as H. unfold analyze_df in H.
  destruct (is_empty query); [discriminate|].
  rewrite Hloc in H. cbn [bind] in H. rewrite Hfound in H. cbn [bind] in H.
  destruct found as [|loc0 rest] eqn:Ef; [discriminate|]. rewrite <- Ef in *.
  apply bind_ok in H. destruct H as [[[td' sm'] ym] [Hloop H]].
  apply bind_ok in H. destruct H as [chart' [Hsort [= <- <- <-]]].
  destruct (loop_log df iloc iy price_cols last_n qt Hyear _ _ _ Hloop)
    as [L [Hym Hlog]].
  cbn [snd] in Hym. exists ym, L. split; [|now split].
  rewrite Hym.
  apply (chart_inv_replay L) with (P := []);
    [|now intros e|apply chart_inv_empty].
  eapply log_compatible; [|exact Hlog].
  intros loc Hin. eapply found_lower; eauto.
Qed.





(** X14. The fields of a chart record follow the intent of the query:
    beside its own year, a record holds integer demand totals under
    title-cased locations only when the intent includes demand, and
    two-decimal price averages under the [_price] keys only when it
    includes price. *)
Theorem chart_fields_follow_intent (y : Z) (rec : record) (k : string)
  (v : cell) :
  chart_record chart y rec -> rec_get k rec = Some v ->
  (k = "year" /\ v = CInt y)
  \/ exists loc,
       In loc found
       /\ ((k = title loc /\ wants_demand qt = true /\ exists n, v = CInt n)
           \/ (k = title loc ++ "_price" /\ wants_price qt = true
               /\ exists f, v = CNum (py_round2 f))).
Proof using Hok Hres Hloc Hyear Hfound.
  intros Hr Hk.
  destruct chart_facts as [ym [L [Hinv [[Hlog Hall] Hsort]]]].
  destruct (chart_of_year_map _ _ _ Hinv Hsort) as [Hrec _].
  apply Hrec in Hr.
  destruct (inv_only _ _ Hinv y k v) as [Hy|[e [He [Hy Hw]]]].
  - unfold field. now rewrite Hr.
  - now left.
  - right. apply Hlog in He. destruct He as [Hf [area [Ha [Hrows Hws]]]].
    exists (e_loc e). split; [exact Hf|].
    destruct (entry_writes_shape _ _ _ _ _ _ Hws)
      as [d [p [Heq [Hd [Hp _]]]]].
    rewrite Heq in Hw. apply in_app_or in Hw. destruct Hw as [Hw|Hw].
    + left. unfold demand_write in Hd.
      destruct (wants_demand qt); [|injection Hd as <-; destruct Hw].
      bind_inv Hd. bind_inv Hd. bind_inv Hd. injection Hd as <-.
      destruct Hw as [[= <- <-]|[]]. eauto.
    + right. unfold price_write in Hp.
      destruct (wants_price qt); [|injection Hp as <-; destruct Hw].
      bind_inv Hp. injection Hp as <-.
      destruct Hw as [[= <- <-]|[]]. eauto.
Qed.

End Chart.

(** [int(x)] drops the fractional part: the result lies between zero and
    [x], less than one away from [x]. *)
Lemma py_int_truncates (x : Q) (n : Z) :
  py_int (FFin x) = Ok n ->
  ((0 <= x)%Q -> (inject_Z n <= x)%Q /\ (x < inject_Z n + 1)%Q)
  /\ ((x <= 0)%Q -> (x <= inject_Z n)%Q /\ (inject_Z n - 1 < x)%Q).
Proof.
  destruct x as [a d]. cbn [py_int Qnum Qden]. intros [= <-].
  unfold Qle, Qlt. cbn [Qnum Qden inject_Z Qplus Qminus Qopp].
  pose proof (Z.quot_rem' a (Zpos d)) as Hqr.
  pose proof (Pos2Z.is_pos d) as Hd.
  change (Z.pos (1 * 1)) with 1. rewrite !Z.mul_1_r.
  split; intros Ha.
  - assert (H0 : 0 <= a) by lia.
    pose proof (Z.rem_bound_pos a (Zpos d) H0 Hd) as Hr.
    revert Hqr Hr. generalize (a ÷ Z.pos d) (Z.rem a (Z.pos d)).
    intros q r Hqr Hr. nia.
  - assert (H0 : a <= 0) by lia.
    assert (H1 : 0 <= - a) by lia.
    pose proof (Z.rem_bound_pos (- a) (Zpos d) H1 Hd) as Hr.
    rewrite Z.rem_opp_l in Hr by lia.
    revert Hqr Hr. generalize (a ÷ Z.pos d) (Z.rem a (Z.pos d)).
    intros q r Hqr Hr. nia.
Qed.

(** ** The memoized load across requests *)

Lemma load_sets_memo (st : state) :
  memo (snd (load_dataframe st)) = Some (fst (load_dataframe st)).
Proof.
  unfold load_dataframe. destruct (memo st) as [r|] eqn:E; [exact E|].
  now destruct (load_body st).
Qed.

Lemma load_twice (st : state) :
  load_dataframe (snd (load_dataframe st))
  = (fst (load_dataframe st), snd (load_dataframe st)).
Proof. apply load_memoized, load_sets_memo. Qed.

Lemma load_agrees (st : state) :
  memo_agrees st -> memo_agrees (snd (load_dataframe st)).
Proof.
  intros H r. unfold load_dataframe, load_body.
  destruct (memo st) as [r0|] eqn:Em.
  { cbn [snd]. rewrite Em. intros [= <-]. now apply H. }
  destruct (cached_df st) as [df|] eqn:Ec; cbn.
  - rewrite Ec. now intros [= <-].
  - destruct (excel_file st) as [[raw|]|]; cbn; rewrite ?Ec;
      try (now intros [= <-]).
    destruct (normalize raw); cbn; rewrite ?Ec; now intros [= <-].
Qed.

Lemma upload_agrees (st : state) (f : option upload) :
  memo_agrees st -> memo_agrees (snd (upload_file st f)).
Proof.
  intros H. unfold upload_file. destruct f as [f|]; [|exact H].
  destruct (accepted_name (name f)); cbn [negb]; [|exact H].
  destruct (read_and_normalize (workbook f)); [|exact H].
  intros r. discriminate.
Qed.

Lemma reachable_agrees (st : state) : reachable st -> memo_agrees st.
Proof.
  induction 1 as [file|st f _ IH|st q _ IH].
  - intros r. discriminate.
  - now apply upload_agrees.
  - rewrite analyze_state. now apply load_agrees.
Qed.

(** X1. Whatever is uploaded, the handler ends in one of three ways: the
    new table is cached and the memoized load cleared (200); or the state
    is exactly what it was, the answer being 400 when no file came or its
    name is not a spreadsheet's, 500 when reading or normalizing raised.
    The file on disk is never touched. *)
Theorem upload_outcomes (st : state) (f : option upload) :
  (status (fst (upload_file st f)) = 200
   /\ exists u df,
        f = Some u /\ read_and_normalize (workbook u) = Ok df
        /\ snd (upload_file st f) = mkState (Some df) None (excel_file st))
  \/ (status (fst (upload_file st f)) = 400
      /\ snd (upload_file st f) = st
      /\ (f = None \/ exists u, f = Some u /\ accepted_name (name u) = false))
  \/ (status (fst (upload_file st f)) = 500
      /\ snd (upload_file st f) = st
      /\ exists u e, f = Some u /\ accepted_name (name u) = true
                     /\ read_and_normalize (workbook u) = Raise e).
Proof.
  unfold upload_file. destruct f as [u|].
  - destruct (accepted_name (name u)) eqn:En; cbn [negb].
    + destruct (read_and_normalize (workbook u)) as [df|e] eqn:Er.
      * left. split; [reflexivity|]. now exists u, df.
      * right. right. split; [reflexivity|]. split; [reflexivity|].
        now exists u, e.
    + right. left. split; [reflexivity|]. split; [reflexivity|].
      right. now exists u.
  - right. left. split; [reflexivity|]. split; [reflexivity|]. now left.
Qed.

(** X2. The load is done once. After any analyze request, a further
    request is answered as it would have been answered in the first place
    and leaves the state as the first request left it -- a failed load
    included: its "No data available." is memoized with the rest. *)
Theorem analyze_repeated (st : state) (q1 q2 : option string) :
  analyze (snd (analyze st q1)) q2
  = (fst (analyze st q2), snd (analyze st q1)).
Proof.
  rewrite (analyze_state st q1). unfold analyze at 1 2.
  rewrite load_twice.
  now destruct (load_dataframe st) as [[df|] st'].
Qed.

(** X3. In every state the handlers reach, a cached table is the table
    analyze works on: no memoized load of an older table survives an
    upload. *)
Theorem cached_table_is_served (st : state) (df : dataframe)
  (area_field : option string) :
  reachable st -> cached_df st = Some df ->
  analyze st area_field
  = (analyze_df df area_field,
     mkState (Some df) (Some (Some df)) (excel_file st)).
Proof.
  intros Hr Hc. apply reachable_agrees in Hr. unfold analyze.
  destruct (memo st) as [r|] eqn:Em.
  - rewrite (load_memoized _ _ Em).
    pose proof (Hr _ Em) as E. rewrite Hc in E. subst r.
    f_equal. destruct st as [c m x]. cbn in Em, Hc |- *. now subst.
  - now rewrite (load_cached _ _ Em Hc).
Qed.

(** X4. The status of an analyze answer tells what happened: 500 exactly
    when no table could be loaded, 200 exactly when the answer is the
    analysis payload, 400 otherwise, with one of the two texts. *)
Theorem analyze_statuses (st : state) (area_field : option string)
  (r : response) :
  fst (analyze st area_field) = Ok r ->
  (status r = 500 /\ fst (load_dataframe st) = None
   /\ content r = SummaryText "No data available.")
  \/ (status r = 400 /\ fst (load_dataframe st) <> None
      /\ (content r = SummaryText "Missing query."
          \/ content r = SummaryText
               ("No matching location found for '"
                  ++ query_of area_field ++ "'.")))
  \/ (status r = 200 /\ fst (load_dataframe st) <> None
      /\ exists sm chart td, content r = Analysis sm chart td).
Proof.
  unfold analyze. destruct (load_dataframe st) as [[df|] st']; cbn [fst].
  - intros H. right. unfold analyze_df in H.
    destruct (is_empty (query_of area_field)).
    { injection H as <-. left. split; [reflexivity|]. split; [discriminate|].
      now left. }
    bind_inv H. bind_inv H. 
    match type of H with
    | match ?l with _ => _ end = _ => destruct l as [|loc rest]
    end.
    { injection H as <-. left. split; [reflexivity|]. split; [discriminate|].
      now right. }
    apply bind_ok in H. destruct H as [[[td sm] ym] [_ H]].
    apply bind_ok in H. destruct H as [chart [_ [= <-]]].
    right. split; [reflexivity|]. split; [discriminate|]. now exists sm, chart, td.
  - intros [= <-]. left. now repeat split.
Qed.

(** ** What the price normalizer returns *)

Lemma str_all_filter (p : ascii -> bool) (s : string) :
  str_all p (str_filter p s) = true.
Proof.
  induction s as [|c t IH]; [reflexivity|]. cbn [str_filter].
  destruct (p c) eqn:E; [|exact IH]. cbn [str_all]. now rewrite E.
Qed.

Lemma str_all_lstrip (p : ascii -> bool) (s : string) :
  str_all p s = true -> str_all p (lstrip s) = true.
Proof.
  induction s as [|c t IH]; [reflexivity|]. cbn [lstrip].
  destruct (is_space c); [|trivial].
  cbn [str_all]. intros H. apply andb_prop in H. now apply IH.
Qed.

Lemma str_all_rstrip (p : ascii -> bool) (s : string) :
  str_all p s = true -> str_all p (rstrip s) = true.
Proof.
  induction s as [|c t IH]; [reflexivity|]. cbn [rstrip str_all].
  intros H. apply andb_prop in H. destruct H as [Hc Ht].
  specialize (IH Ht). destruct (rstrip t) as [|c' t'].
  - destruct (is_space c); [reflexivity|]. cbn [str_all]. now rewrite Hc.
  - change (p c && str_all p (String c' t') = true). now rewrite Hc.
Qed.

Lemma str_all_Forall (p : ascii -> bool) (s : string) :
  str_all p s = true ->
  Forall (fun c => p c = true) (list_ascii_of_string s).
Proof.
  induction s as [|c t IH]; cbn [str_all list_ascii_of_string];
    [constructor|].
  intros H. apply andb_prop in H. destruct H. constructor; auto.
Qed.

Lemma drop_underscores_Forall (P : ascii -> Prop) (cs : list ascii) :
  forall prev cs',
    drop_underscores prev cs = Some cs' -> Forall P cs -> Forall P cs'.
Proof.
  induction cs as [|c t IH]; intros prev cs' H HF.
  - assert (E : cs' = []).
    { destruct prev as [[[] [] [] [] [] [] [] []]|]; cbn in H;
        congruence. }
    subst. constructor.
  - inversion HF as [|? ? Hc Ht]; subst. cbn [drop_underscores] in H.
    destruct (Ascii.eqb c "_").
    + destruct prev as [q|]; [|discriminate].
      destruct (is_digit q); [|discriminate]. eauto.
    + assert (E : option_map (cons c) (drop_underscores (Some c) t)
                  = Some cs').
      { destruct prev as [[[] [] [] [] [] [] [] []]|]; try exact H.
        destruct (is_digit c); [exact H|discriminate]. }
      destruct (drop_underscores (Some c) t) as [r|] eqn:Er; [|discriminate].
      injection E as <-. constructor; eauto.
Qed.

Lemma digit_val_nonneg (c : ascii) : 0 <= digit_val c.
Proof. unfold digit_val. apply N2Z.is_nonneg. Qed.

Lemma digits_val_from (ds : list ascii) (acc : Z) :
  0 <= acc -> 0 <= fold_left (fun acc c => 10 * acc + digit_val c) ds acc.
Proof.
  revert acc. induction ds as [|d t IH]; intros acc H; [exact H|].
  cbn [fold_left]. apply IH. pose proof (digit_val_nonneg d). lia.
Qed.

Lemma digits_val_nonneg (ds : list ascii) : 0 <= digits_val ds.
Proof. apply digits_val_from. lia. Qed.

Lemma pow10_nonneg (e : Z) : (0 <= pow10 e)%Q.
Proof.
  unfold pow10. destruct (0 <=? e).
  - unfold Qle. cbn. pose proof (Z.pow_nonneg 10 e). lia.
  - apply Qinv_le_0_compat. unfold Qle. cbn.
    pose proof (Z.pow_nonneg 10 (- e)). lia.
Qed.

Lemma decimal_value_nonneg (m e : Z) :
  0 <= m -> (0 <= decimal_value false m e)%Q.
Proof.
  intros H. unfold decimal_value. rewrite Qred_correct.
  apply Qmult_le_0_compat; [|apply pow10_nonneg].
  unfold Qle. cbn. lia.
Qed.

Lemma unsigned_head (c : ascii) (t : list ascii) :
  digit_or_dot c = true -> take_sign (c :: t) = (false, c :: t).
Proof.
  intros H. destruct c as [[] [] [] [] [] [] [] []];
    try reflexivity; vm_compute in H; discriminate.
Qed.

Lemma unsigned_word (c : ascii) (t : list ascii) (w : string) :
  digit_or_dot c = true ->
  w = "inf" \/ w = "infinity" \/ w = "nan" ->
  String.eqb (lower (string_of_list_ascii (c :: t))) w = false.
Proof.
  intros H Hw. cbn [string_of_list_ascii lower str_map].
  destruct c as [[] [] [] [] [] [] [] []];
    try (vm_compute in H; discriminate);
    destruct Hw as [-> | [-> | ->]]; reflexivity.
Qed.

(** A literal made of digits and dots only is a number not below zero. *)
Lemma strtod_unsigned (cs : list ascii) (f : pyfloat) :
  Forall (fun c => digit_or_dot c = true) cs ->
  strtod cs = Some f -> nonneg_finite f.
Proof.
  intros HF. unfold strtod.
  assert (Hs : take_sign cs = (false, cs)).
  { destruct HF; [reflexivity|now apply unsigned_head]. }
  rewrite Hs.
  assert (Hw : forall w, w = "inf" \/ w = "infinity" \/ w = "nan" ->
                 String.eqb (lower (string_of_list_ascii cs)) w = false).
  { intros w Hw. destruct HF; [|now apply unsigned_word].
    destruct Hw as [-> | [-> | ->]]; reflexivity. }
  rewrite !Hw by auto. cbn [orb].
  destruct (span is_digit cs) as [ip r1].
  match goal with
  | |- (let (fp, r2) := ?m in _) = _ -> _ => destruct m as [fp r2]
  end.
  destruct (ip ++ fp)%list as [|d ds] eqn:Eds; [discriminate|].
  destruct r2 as [|c t].
  - intros [= <-]. eexists. split; [reflexivity|].
    apply decimal_value_nonneg, digits_val_nonneg.
  - destruct (is_exp_mark c); [|discriminate].
    destruct (take_sign t) as [eneg t1].
    destruct (span is_digit t1) as [[|e0 ed] [|x t2]]; try discriminate.
    intros [= <-]. eexists. split; [reflexivity|].
    apply decimal_value_nonneg, digits_val_nonneg.
Qed.

Lemma float_of_kept_digits (s : string) (f : pyfloat) :
  float_of_string (keep_digits_and_dots s) = Some f -> nonneg_finite f.
Proof.
  unfold float_of_string.
  destruct (drop_underscores None _) as [cs|] eqn:Ed; [|discriminate].
  apply strtod_unsigned.
  eapply drop_underscores_Forall; [exact Ed|].
  apply (str_all_Forall digit_or_dot). unfold strip.
  apply str_all_rstrip, str_all_lstrip, str_all_filter.
Qed.

(** X5. For a text that is no float literal and holds no hyphen, the
    price normalizer returns absent or a number that is not below zero:
    the step that keeps digits and dots cannot produce a negative number
    or nan. *)
Theorem stripped_price_is_not_negative (s : string) (f : pyfloat) :
  float_of_string s = None -> contains "-" s = false ->
  parse_price (CStr s) = Ok (Some f) -> not_below_zero f.
Proof.
  intros Hf Hc. rewrite (no_hyphen_strips _ Hf Hc).
  unfold strip_and_convert. cbn [py_float].
  destruct (float_of_string (keep_digits_and_dots s)) as [g|] eqn:E;
    cbn [bind try_except]; [|discriminate].
  intros [= <-]. apply float_of_kept_digits in E.
  destruct E as [q [-> Hq]]. exact Hq.
Qed.

Lemma has_char_cons (a c : ascii) (s : string) :
  has_char a (String c s) = false ->
  Ascii.eqb c a = false /\ has_char a s = false.
Proof.
  unfold has_char. cbn [str_all]. destruct (Ascii.eqb c a); cbn; [discriminate|].
  now split.
Qed.





(** X7. The percentage of the summary divides by the first collected
    price: it raises, with a ZeroDivisionError, exactly when that price is
    zero. *)
Theorem price_trend_raises_on_zero (first : pyfloat) (rest : list pyfloat) :
  (exists e, price_trend_of (first :: rest) = Raise e)
  <-> exists q, first = FFin q /\ (q == 0)%Q.
Proof.
  unfold price_trend_of, py_truediv. split.
  - intros [e H]. destruct first as [| |q]; try discriminate.
    exists q. split; [reflexivity|].
    unfold q_is_zero in H. destruct (Qnum q =? 0) eqn:E; [|discriminate].
    apply Z.eqb_eq in E. unfold Qeq. cbn. lia.
  - intros [q [-> Hq]]. exists ZeroDivisionError.
    unfold q_is_zero. unfold Qeq in Hq. cbn in Hq.
    assert (E : Qnum q = 0) by lia. now rewrite E.
Qed.

(** X8. When the last collected price equals the first and is above
    zero, the summary reports a change of 0.0 percent; a single price is
    the simplest case. *)
Theorem unchanged_price_reads_zero (q q' : Q) (rest : list pyfloat) :
  (0 < q)%Q -> (q' == q)%Q ->
  last (FFin q :: rest) (FFin q) = FFin q' ->
  price_trend_of (FFin q :: rest) = Ok "0.0% average change over period".
Proof.
  intros Hpos Hq Hlast. unfold price_trend_of. rewrite Hlast.
  assert (Hz : q_is_zero q = false).
  { unfold q_is_zero. apply Z.eqb_neq. unfold Qlt in Hpos. cbn in Hpos. lia. }
  assert (E1 : fsub (FFin q') (FFin q) = FFin 0).
  { unfold fsub, fneg, fadd. f_equal. change 0%Q with (Qred 0).
    apply Qred_complete. rewrite Qred_correct, Hq. ring. }
  assert (E2 : fdiv (FFin 0) (FFin q) = FFin 0).
  { unfold fdiv. now rewrite Hz. }
  unfold py_truediv. rewrite Hz, E1, E2. reflexivity.
Qed.

(** ** Matching the locations of the table against the query *)

Lemma fuzzy_singleton (q loc : string) (th : Q) :
  fuzzy_match_location q [loc] th
  = if Qle_bool th (ratio loc q) then Some loc else None.
Proof.
  unfold fuzzy_match_location, get_close_matches. cbn [filter].
  now destruct (Qle_bool th (ratio loc q)).
Qed.

Lemma mentioned_spec (q loc : string) :
  mentioned q loc = true
  <-> contains loc q = true
      \/ (loc <> EmptyString /\ (default_threshold <= ratio loc q)%Q).
Proof.
  unfold mentioned. rewrite fuzzy_singleton, orb_true_iff.
  rewrite <- Qle_bool_iff.
  destruct (Qle_bool default_threshold (ratio loc q)).
  - destruct loc; cbn [is_empty negb]; intuition congruence.
  - intuition congruence.
Qed.

Lemma find_locs_iff (query : string) (cs : list cell) :
  forall found, find_locs query cs = Ok found ->
  forall loc, In loc found <-> In (CStr loc) cs /\ mentioned query loc = true.
Proof.
  induction cs as [|c t IH]; intros found H loc.
  - injection H as <-. cbn. tauto.
  - cbn [find_locs] in H. destruct c as [|z|f|s]; try discriminate.
    destruct (mentioned query s) eqn:Em.
    + apply bind_ok in H. destruct H as [rest [Hrest [= <-]]].
      cbn [In]. rewrite (IH _ Hrest). split.
      * intros [->|[Hin Hm]]; [now split; [left|]|]. split; [now right|exact Hm].
      * intros [[[= ->]|Hin] Hm]; [now left|right; now split].
    + rewrite (IH _ H). cbn [In]. split.
      * intros [Hin Hm]. split; [now right|exact Hm].
      * intros [[[= ->]|Hin] Hm]; [congruence|now split].
Qed.

Lemma find_locs_total (query : string) (cs : list cell) :
  (forall c, In c cs -> exists s, c = CStr s) ->
  exists found, find_locs query cs = Ok found.
Proof.
  induction cs as [|c t IH]; intros H; [now exists []|].
  destruct IH as [rest Hrest]; [intros c' Hc'; apply H; now right|].
  destruct (H c (or_introl eq_refl)) as [s ->]. cbn [find_locs].
  rewrite Hrest. destruct (mentioned query s); cbn [bind]; eauto.
Qed.

(** X9. The matched locations are exactly the location values that occur
    in the query as a substring or -- unless empty -- whose similarity to
    the whole query reaches 0.8; in particular every location written out
    in the query is matched. *)
Theorem found_locations (query : string) (cs : list cell)
  (found : list string) :
  find_locs query cs = Ok found ->
  forall loc,
    In loc found
    <-> In (CStr loc) cs
        /\ (contains loc query = true
            \/ (loc <> EmptyString
                /\ (default_threshold <= ratio loc query)%Q)).
Proof.
  intros H loc. rewrite (find_locs_iff _ _ _ H). now rewrite mentioned_spec.
Qed.

(** X10. On a table the loader has normalized, matching the locations
    does not raise: every value of [final_location] is text. *)
Theorem matching_never_raises (df : dataframe) (iloc : nat) (query : string) :
  table_ok df -> col_index "final_location" df = Ok iloc ->
  exists found,
    find_locs query (unique (dropna (map (cell_at iloc) (rows df))))
    = Ok found.
Proof.
  intros [_ [Hok _]] Hi. apply find_locs_total. intros c Hin.
  apply unique_from_in in Hin. unfold dropna in Hin.
  apply filter_In in Hin. destruct Hin as [Hin _].
  apply in_map_iff in Hin. destruct Hin as [r [<- Hin]].
  apply col_index_of in Hi. specialize (Hok _ Hi).
  pose proof (proj1 (Forall_forall _ _) Hok r Hin) as [s [Hs _]]. eauto.
Qed.

Lemma best_fold (q : string) (t : list string) :
  forall x,
    let m := fold_left (fun best y => if scores_above q y best then y else best)
                       t x in
    In m (x :: t)
    /\ forall y, In y (x :: t) -> (ratio y q <= ratio m q)%Q.
Proof.
  induction t as [|y t IH]; intros x; cbn zeta.
  - cbn [fold_left]. split; [now left|].
    intros y [<-|[]]. apply Qle_refl.
  - cbn [fold_left]. specialize (IH (if scores_above q y x then y else x)).
    cbn zeta in IH. destruct IH as [Hin Hmax].
    assert (Hstep : (ratio x q <= ratio (if scores_above q y x then y else x) q)%Q
                    /\ (ratio y q <= ratio (if scores_above q y x then y else x) q)%Q).
    { unfold scores_above.
      destruct (Qcompare (ratio y q) (ratio x q)) eqn:E.
      - apply Qeq_alt in E.
        destruct (String.ltb x y); split;
          try apply Qle_refl; rewrite E; apply Qle_refl.
      - apply Qlt_alt in E. split; [apply Qle_refl|now apply Qlt_le_weak].
      - apply Qgt_alt in E. split; [now apply Qlt_le_weak|apply Qle_refl]. }
    destruct Hstep as [Hx Hy]. split.
    + destruct Hin as [<-|Hin]; [|right; now right].
      destruct (scores_above q y x); [right; now left|now left].
    + intros z [<-|[<-|Hz]].
      * eapply Qle_trans; [exact Hx|]. apply Hmax. now left.
      * eapply Qle_trans; [exact Hy|]. apply Hmax. now left.
      * apply Hmax. now right.
Qed.

(** X11. For a threshold between 0 and 1 (difflib rejects any other),
    the fuzzy match is a candidate whose similarity to the query reaches
    the threshold and is not exceeded by any other candidate; there is
    none exactly when no candidate reaches the threshold. *)
Theorem fuzzy_match_is_best (q : string) (locs : list string) (th : Q) :
  (0 <= th)%Q -> (th <= 1)%Q ->
  match fuzzy_match_location q locs th with
  | Some m =>
      In m locs /\ (th <= ratio m q)%Q
      /\ forall x, In x locs -> (th <= ratio x q)%Q ->
           (ratio x q <= ratio m q)%Q
  | None => forall x, In x locs -> ~ (th <= ratio x q)%Q
  end.
Proof.
  intros _ _. unfold fuzzy_match_location, get_close_matches.
  destruct (filter (fun x => Qle_bool th (ratio x q)) locs) as [|x t] eqn:E.
  - intros x Hin Hle. apply Qle_bool_iff in Hle.
    assert (Hf : In x (filter (fun x => Qle_bool th (ratio x q)) locs))
      by (apply filter_In; now split).
    rewrite E in Hf. destruct Hf.
  - destruct (best_fold q t x) as [Hin Hmax].
    rewrite <- E in Hin, Hmax. apply filter_In in Hin.
    destruct Hin as [Hin Hle]. apply Qle_bool_iff in Hle.
    split; [exact Hin|]. split; [exact Hle|].
    intros y Hy Hyle. apply Hmax, filter_In. split; [exact Hy|].
    now apply Qle_bool_iff.
Qed.

(** ** The summaries and the table rows of a successful analysis *)

Lemma map_fst_combine {A B : Type} (l : list A) (l' : list B) :
  length l = length l' -> map fst (combine l l') = l.
Proof.
  revert l'. induction l as [|a t IH]; intros [|b t'] H;
    try reflexivity; try discriminate.
  cbn. f_equal. apply IH. now injection H.
Qed.

Lemma mapM_length {A B : Type} (f : A -> result B) (l : list A) (l' : list B) :
  mapM f l = Ok l' -> length l' = length l.
Proof.
  intros H. apply mapM_Forall2 in H.
  induction H; cbn; [reflexivity|now f_equal].
Qed.

Section Outputs.
Variables (df : dataframe) (iloc : nat) (price_cols : list string).
Variables (last_n : option Z) (qt : query_type).

Lemma analyze_location_outputs (acc acc' : loop_state) (loc : string) :
  analyze_location df iloc price_cols last_n qt acc loc = Ok acc' ->
  exists area text idxs,
    location_area df iloc last_n loc = Ok area
    /\ generate_mock_summary area price_cols loc last_n = Ok text
    /\ mapM (fun c => col_index c df) (table_cols qt price_cols) = Ok idxs
    /\ fst (fst acc')
       = (fst (fst acc)
            ++ map (row_record (table_cols qt price_cols) idxs) (rows area))%list
    /\ snd (fst acc')
       = (snd (fst acc) ++ [mkSummary (title loc) text])%list.
Proof.
  unfold analyze_location, analyze_area. intros H.
  apply bind_ok in H. destruct H as [area [Harea H]].
  destruct acc as [[td sm] ym].
  apply bind_ok in H. destruct H as [text [Htext H]].
  apply bind_ok in H. destruct H as [iy [_ H]].
  apply bind_ok in H. destruct H as [ym' [_ H]].
  apply bind_ok in H. destruct H as [recs [Hrecs [= <-]]].
  unfold to_dict_records in Hrecs.
  apply bind_ok in Hrecs. destruct Hrecs as [idxs [Hidx [= <-]]].
  rewrite (mapM_ext _ (fun c => col_index c df)) in Hidx
    by (intros c; apply col_index_same;
        eapply location_area_columns; eassumption).
  exists area, text, idxs. now repeat split.
Qed.

Lemma loop_summaries (found : list string) :
  forall acc acc',
    foldM (analyze_location df iloc price_cols last_n qt) found acc = Ok acc' ->
    exists sm,
      snd (fst acc') = (snd (fst acc) ++ sm)%list
      /\ Forall2 (fun loc s =>
                    location s = title loc
                    /\ exists area,
                         location_area df iloc last_n loc = Ok area
                         /\ generate_mock_summary area price_cols loc last_n
                            = Ok (mockSummary s))
                 found sm.
Proof.
  induction found as [|loc t IH]; intros acc acc' H.
  - injection H as <-. exists []. split; [now rewrite app_nil_r|constructor].
  - cbn [foldM] in H. apply bind_ok in H. destruct H as [acc1 [H1 H]].
    destruct (analyze_location_outputs _ _ _ H1)
      as [area [text [idxs [Ha [Ht [_ [_ Hsm]]]]]]].
    destruct (IH _ _ H) as [sm [Hsm' Hall]].
    exists (mkSummary (title loc) text :: sm). split.
    + rewrite Hsm', Hsm, <- app_assoc. reflexivity.
    + constructor; [|exact Hall]. split; [reflexivity|]. now exists area.
Qed.

Lemma loop_table (idxs : list nat) (found : list string) :
  mapM (fun c => col_index c df) (table_cols qt price_cols) = Ok idxs ->
  forall acc acc',
    foldM (analyze_location df iloc price_cols last_n qt) found acc = Ok acc' ->
    exists areas,
      Forall2 (fun loc area => location_area df iloc last_n loc = Ok area)
              found areas
      /\ fst (fst acc')
         = (fst (fst acc)
              ++ flat_map (fun area =>
                             map (row_record (table_cols qt price_cols) idxs)
                                 (rows area))
                          areas)%list.
Proof.
  intros Hidx. induction found as [|loc t IH]; intros acc acc' H.
  - injection H as <-. exists []. split; [constructor|now rewrite app_nil_r].
  - cbn [foldM] in H. apply bind_ok in H. destruct H as [acc1 [H1 H]].
    destruct (analyze_location_outputs _ _ _ H1)
      as [area [text [idxs' [Ha [_ [Hidx' [Htd _]]]]]]].
    rewrite Hidx in Hidx'. injection Hidx' as <-.
    destruct (IH _ _ H) as [areas [Hall Htd']].
    exists (area :: areas). split; [now constructor|].
    rewrite Htd', Htd, <- app_assoc. reflexivity.
Qed.

End Outputs.

Section Payload.
Variables (df : dataframe) (area_field : option string).
Variables (sm : list summary_entry) (chart td : list record).
Variables (iloc : nat) (found : list string).

Local Abbreviation query := (query_of area_field).
Local Abbreviation last_n := (extract_last_n (query_of area_field)).
Local Abbreviation qt := (classify (query_of area_field)).
Local Abbreviation price_cols := (detect_price_cols df).

Hypothesis Hres :
  analyze_df df area_field = Ok (mkResponse (Analysis sm chart td) 200).
Hypothesis Hloc : col_index "final_location" df = Ok iloc.
Hypothesis Hfound :
  find_locs query (unique (dropna (map (cell_at iloc) (rows df)))) = Ok found.

Lemma payload_loop :
  found <> []
  /\ exists ym,
       foldM (analyze_location df iloc price_cols last_n qt) found ([], [], [])
       = Ok (td, sm, ym).
Proof using Hres Hloc Hfound.
  pose proof Hres as H. unfold analyze_df in H.
  destruct (is_empty query); [discriminate|].
  rewrite Hloc in H. cbn [bind] in H. rewrite Hfound in H. cbn [bind] in H.
  destruct found as [|loc0 rest] eqn:Ef; [discriminate|].
  split; [discriminate|].
  apply bind_ok in H. destruct H as [[[td' sm'] ym] [Hloop H]].
  apply bind_ok in H. destruct H as [chart' [_ [= <- <- <-]]].
  now exists ym.
Qed.

(** X12. The payload has one summary for each matched location, in the
    order of matching: its name is the location in title case, its text
    what the summary generator makes of the location's sorted, windowed
    rows. *)
Theorem summary_per_location :
  Forall2 (fun loc s =>
             location s = title loc
             /\ exists area,
                  location_area df iloc last_n loc = Ok area
                  /\ generate_mock_summary area price_cols loc last_n
                     = Ok (mockSummary s))
          found sm.
Proof using Hres Hloc Hfound.
  destruct payload_loop as [_ [ym Hloop]].
  destruct (loop_summaries _ _ _ _ _ _ _ _ Hloop) as [sm' [Hsm Hall]].
  cbn in Hsm. now subst sm'.
Qed.

(** X13. The table of the payload lists, location after location in the
    order of matching, one record for each sorted, windowed row of the
    location; every record has the keys final_location, year, then demand
    and the price columns as the intent asks, with the row's cells under
    them. *)
Theorem table_rows_per_location :
  exists idxs areas,
    mapM (fun c => col_index c df) (table_cols qt price_cols) = Ok idxs
    /\ Forall2 (fun loc area => location_area df iloc last_n loc = Ok area)
               found areas
    /\ td = flat_map (fun area =>
                        map (row_record (table_cols qt price_cols) idxs)
                            (rows area))
                     areas
    /\ forall r, In r td -> map fst r = table_cols qt price_cols.
Proof using Hres Hloc Hfound.
  destruct payload_loop as [Hne [ym Hloop]].
  assert (Hidx : exists idxs,
            mapM (fun c => col_index c df) (table_cols qt price_cols)
            = Ok idxs).
  { destruct found as [|loc0 rest]; [congruence|].
    pose proof Hloop as H. cbn [foldM] in H.
    apply bind_ok in H. destruct H as [acc1 [H1 _]].
    destruct (analyze_location_outputs _ _ _ _ _ _ _ _ H1)
      as [_ [_ [idxs [_ [_ [Hidx _]]]]]].
    now exists idxs. }
  destruct Hidx as [idxs Hidx].
  destruct (loop_table _ _ _ _ _ _ _ Hidx _ _ Hloop) as [areas [Hall Htd]].
  cbn in Htd. exists idxs, areas.
  split; [exact Hidx|]. split; [exact Hall|]. split; [exact Htd|].
  intros r Hin. rewrite Htd in Hin. apply in_flat_map in Hin.
  destruct Hin as [area [_ Hin]]. apply in_map_iff in Hin.
  destruct Hin as [r0 [<- _]]. unfold row_record. rewrite map_map.
  cbn [fst]. change (fun x : string * nat => fst x) with (@fst string nat).
  apply map_fst_combine. symmetry. eapply mapM_length. exact Hidx.
Qed.

End Payload.

(** ** The window and the loader, at their edges *)

Lemma apply_window_cases (n : Z) (area : dataframe) (iy : nat) :
  n <> 0 -> col_index "year" area = Ok iy ->
  match apply_window (Some n) area with
  | Ok _ => exists r y, In r (rows area) /\ year_at iy r = Some y
  | Raise e =>
      e = TypeError /\ forall r, In r (rows area) -> year_at iy r = None
  end.
Proof.
  intros Hn Hi. unfold apply_window.
  destruct (n =? 0) eqn:E; [apply Z.eqb_eq in E; contradiction|].
  rewrite Hi. cbn [bind]. unfold max_year_of.
  pose proof (max_fold iy (rows area) None) as H.
  destruct (fold_left (max_step iy) (rows area) None) as [m|]; cbn [int_of_max bind].
  - destruct H as [[H|[r [Hin Hr]]] _]; [discriminate|]. now exists r, m.
  - now split.
Qed.

(** X15. On a normalized table, cutting the rows of a location to a
    window of N <> 0 years raises a TypeError exactly when every year of
    the location is missing; otherwise some row has a year and the rows
    are returned. *)
Theorem window_needs_a_year (df : dataframe) (iloc iy : nat) (n : Z)
  (loc : string) :
  table_ok df -> col_index "year" df = Ok iy -> n <> 0 ->
  match location_area df iloc (Some n) loc with
  | Ok _ =>
      exists r y, In r (rows_of_location df iloc loc) /\ cell_at iy r = CInt y
  | Raise e =>
      e = TypeError
      /\ forall r, In r (rows_of_location df iloc loc) -> cell_at iy r = CNone
  end.
Proof.
  intros [_ [_ Hyr]] Hi Hn. unfold location_area.
  pose proof (apply_window_cases n
                (mkDF (columns df) (rows_of_location df iloc loc)) iy Hn Hi)
    as H.
  destruct (apply_window (Some n) _) as [area|e] eqn:E; cbn [bind].
  - apply apply_window_columns in E. cbn [columns] in E.
    unfold sort_values. rewrite (col_index_same "year" df area E), Hi.
    cbn [bind]. destruct H as [r [y [Hin Hr]]]. exists r, y.
    split; [exact Hin|]. unfold year_at in Hr.
    destruct (cell_at iy r); congruence.
  - destruct H as [-> H]. split; [reflexivity|]. intros r Hin.
    specialize (H r Hin). cbn [rows] in Hin.
    apply filter_In in Hin. destruct Hin as [Hin _].
    apply col_index_of in Hi. specialize (Hyr _ Hi).
    pose proof (proj1 (Forall_forall _ _) Hyr r Hin) as [Hc|[z Hc]];
      [exact Hc|].
    unfold year_at in H. rewrite Hc in H. discriminate.
Qed.

(** X16. The number of years read from the query is never negative, and
    it opens a window only when it is at least 1. *)
Theorem window_length_is_natural (query : string) (n : Z) :
  extract_last_n query = Some n ->
  0 <= n /\ (truthy (Some n) = true <-> 1 <= n).
Proof.
  unfold extract_last_n.
  destruct (search_window (list_ascii_of_string query)) as [ds|];
    [|discriminate].
  intros [= <-]. pose proof (digits_val_nonneg ds) as H.
  split; [exact H|]. cbn [truthy]. rewrite negb_true_iff, Z.eqb_neq. lia.
Qed.

Lemma replace_char_absent (a b : ascii) (s : string) :
  has_char a s = false -> replace_char a b s = s.
Proof.
  induction s as [|c t IH]; [reflexivity|]. intros H.
  apply has_char_cons in H. destruct H as [Hc Ht].
  unfold replace_char in *. cbn [str_map]. now rewrite Hc, (IH Ht).
Qed.

(** X17. The labels the loader produces are exactly the labels it leaves
    alone: a text is trimmed, lower-case and free of spaces and hyphens if
    and only if normalizing it changes nothing. *)
Theorem normal_labels_are_fixed_points (s : string) :
  label_ok s <-> normalize_label (CStr s) = s.
Proof.
  split.
  - intros [Hs [Hl [Hsp Hhy]]]. unfold normalize_label. cbn [py_str].
    rewrite Hs, Hl, (replace_char_absent _ _ _ Hsp).
    now apply replace_char_absent.
  - intros <-. apply normalize_label_ok.
Qed.

Lemma on_column_rows (label : string)
  (f : list row -> nat -> result (list row)) (df df' : dataframe) :
  (forall rs i rs', f rs i = Ok rs' -> length rs' = length rs) ->
  on_column label f df = Ok df' ->
  columns df' = columns df /\ length (rows df') = length (rows df).
Proof.
  intros Hf. unfold on_column.
  destruct (existsb (String.eqb label) (columns df)).
  - intros H. bind_inv H. bind_inv H. injection H as <-.
    split; [reflexivity|]. cbn [rows]. eauto.
  - intros [= <-]. now split.
Qed.

Lemma normalize_shaped (raw : sheet) (df : dataframe) :
  normalize raw = Ok df ->
  let cols := map normalize_label (labels raw) in
  length (rows df) = length (cells raw)
  /\ columns df = (if existsb (String.eqb "demand") cols then cols
                   else cols ++ ["demand"])%list
  /\ In "demand" (columns df)
  /\ wide df.
Proof.
  unfold normalize. intros H. cbn zeta.
  set (cols := map normalize_label (labels raw)) in *.
  apply bind_ok in H. destruct H as [df1 [H1 H]].
  apply bind_ok in H. destruct H as [df2 [H2 H]].
  assert (Hw0 : wide (mkDF cols (map (fit (length cols)) (cells raw)))).
  { unfold wide. cbn [rows columns]. apply Forall_forall.
    intros r Hr. apply in_map_iff in Hr. destruct Hr as [r0 [<- _]].
    apply fit_length. }
  destruct (normalize_locations_ok _ _ Hw0 H1) as [Hc1 [Hw1 Hok1]].
  destruct (coerce_years_ok _ _ Hw1 Hok1 H2) as [Hc2 [Hw2 _]].
  apply on_column_rows in H1;
    [|intros rs i rs' [= <-]; apply length_map].
  apply on_column_rows in H2;
    [|intros rs i rs' Hrs; eapply mapM_length; exact Hrs].
  destruct H1 as [_ Hr1]. destruct H2 as [_ Hr2].
  cbn [rows columns] in Hr1, Hc1. rewrite length_map in Hr1.
  assert (Hcols : columns df2 = cols) by congruence.
  unfold derive_demand in H. rewrite Hcols in H.
  destruct (existsb (String.eqb "demand") cols) eqn:E.
  - injection H as <-. split; [congruence|]. split; [exact Hcols|].
    split; [|exact Hw2].
    apply existsb_exists in E. destruct E as [x [Hx E]].
    apply String.eqb_eq in E. subst x. now rewrite Hcols.
  - apply bind_ok in H. destruct H as [rs [Hrs [= <-]]]. cbn [rows columns].
    split.
    { transitivity (length (rows df2));
        [exact (mapM_length _ _ _ Hrs)|congruence]. }
    split; [reflexivity|].
    split; [apply in_or_app; right; now left|].
    unfold wide. cbn [rows columns]. apply mapM_Forall2 in Hrs.
    unfold wide in Hw2. rewrite Hcols in Hw2.
    clear - Hrs Hw2. induction Hrs as [|r r' t t' Hr _ IH]; [constructor|].
    inversion Hw2 as [|? ? Hlen Ht]; subst.
    constructor; [|now apply IH].
    apply bind_ok in Hr. destruct Hr as [v [_ [= <-]]].
    rewrite !length_app, Hlen. reflexivity.
Qed.

(** X18. Normalizing a sheet keeps its rows, one for one, and its labels,
    normalized, in their order; a column [demand] is appended unless a
    label already normalizes to it, so the result always has one; and
    every row is as wide as the header. *)
Theorem normalize_shape (raw : sheet) (df : dataframe) :
  normalize raw = Ok df ->
  length (rows df) = length (cells raw)
  /\ columns df
     = (if existsb (String.eqb "demand") (map normalize_label (labels raw))
        then map normalize_label (labels raw)
        else map normalize_label (labels raw) ++ ["demand"])%list
  /\ In "demand" (columns df)
  /\ wide df.
Proof. exact (normalize_shaped raw df). Qed.

Lemma read_shaped (parsed : option sheet) (df : dataframe) :
  read_and_normalize parsed = Ok df -> shaped df.
Proof.
  destruct parsed as [raw|]; [|discriminate]. cbn [read_and_normalize].
  intros H. apply normalize_shaped in H. cbn zeta in H.
  destruct H as [_ [_ [Hd Hw]]]. now split.
Qed.

Lemma reachable_cached_shaped (st : state) :
  reachable st -> forall df, cached_df st = Some df -> shaped df.
Proof.
  induction 1 as [file|st f _ IH|st q _ IH]; intros df.
  - discriminate.
  - unfold upload_file. destruct f as [f|]; [|apply IH].
    destruct (accepted_name (name f)); cbn [negb]; [|apply IH].
    destruct (read_and_normalize (workbook f)) as [df'|] eqn:E; [|apply IH].
    cbn [snd cached_df]. intros [= <-]. now apply read_shaped in E.
  - rewrite analyze_state. unfold load_dataframe.
    destruct (memo st) as [r|]; [apply IH|]. unfold load_body.
    destruct (cached_df st) as [df'|] eqn:Ec; cbn [snd cached_df].
    + rewrite Ec. apply IH.
    + destruct (excel_file st) as [parsed|]; cbn [snd cached_df];
        [|rewrite Ec; discriminate].
      destruct (read_and_normalize parsed) as [df'|] eqn:E;
        cbn [snd cached_df]; [|rewrite Ec; discriminate].
      intros [= <-]. now apply read_shaped in E.
Qed.

(** X19. A table without a [year] column passes the matching and then
    makes analyze raise: with a matched location, the first sort or window
    on the location's rows is a KeyError that no handler catches. *)
Theorem missing_year_column_raises (df : dataframe)
  (area_field : option string) (iloc : nat) (loc0 : string)
  (rest : list string) :
  is_empty (query_of area_field) = false ->
  col_index "final_location" df = Ok iloc ->
  find_locs (query_of area_field)
            (unique (dropna (map (cell_at iloc) (rows df))))
  = Ok (loc0 :: rest) ->
  index_of "year" (columns df) = None ->
  analyze_df df area_field = Raise KeyError.
Proof.
  intros Hq Hi Hf Hy. unfold analyze_df. rewrite Hq, Hi. cbn [bind].
  rewrite Hf. cbn [bind foldM].
  assert (Ha : forall last_n,
            location_area df iloc last_n loc0 = Raise KeyError).
  { intros last_n. unfold location_area, apply_window, sort_values, col_index.
    cbn [columns]. rewrite Hy.
    destruct last_n as [n|]; [destruct (n =? 0)|];
      cbn [bind columns]; rewrite ?Hy; reflexivity. }
  unfold analyze_location. now rewrite Ha.
Qed.

(** X20. In every state the handlers reach, the table analyze loads has a
    [demand] column and rows as wide as its header: the summary and the
    chart never fail for want of the demand column. *)
Theorem loaded_table_is_shaped (st : state) (df : dataframe) :
  reachable st -> fst (load_dataframe st) = Some df ->
  In "demand" (columns df) /\ wide df.
Proof.
  intros Hr. pose proof (reachable_agrees _ Hr) as Hm.
  pose proof (reachable_cached_shaped _ Hr) as Hc.
  unfold load_dataframe. destruct (memo st) as [r|] eqn:Em; cbn [fst].
  - intros ->. apply Hc. symmetry. now apply Hm.
  - unfold load_body. destruct (cached_df st) as [df'|] eqn:Ec; cbn [fst].
    + intros [= <-]. now apply Hc.
    + destruct (excel_file st) as [parsed|]; cbn [fst]; [|discriminate].
      destruct (read_and_normalize parsed) as [df'|] eqn:E; cbn [fst];
        [|discriminate].
      intros [= <-]. now apply read_shaped in E.
Qed.

End Views.

(** ** The theorems on concrete tables *)

Lemma two_city_table_ok : table_ok two_city_table.
Proof.
  split; [|split].
  - repeat (constructor; [repeat split|]). constructor.
  - intros i Hi. vm_compute in Hi. injection Hi as <-.
    repeat (constructor; [eexists; repeat split|]). constructor.
  - intros i Hi. vm_compute in Hi. injection Hi as <-.
    repeat (constructor; [right; eexists; reflexivity|]). constructor.
Qed.

Lemma two_city_answer (float_repr : pyfloat -> string)
  (ratio : string -> string -> Q) :
  analyze_df float_repr ratio two_city_table two_city_query
  = Ok (mkResponse (Analysis two_city_summaries two_city_chart two_city_rows)
                   200).
Proof. vm_compute. reflexivity. Qed.



Lemma failed_range_witness :
  parse_price sample_repr (CStr "abc-1200") = Ok None.
Proof.
  apply (failed_range_is_absent sample_repr (CStr "abc-1200") ValueError).
  - reflexivity.
  - reflexivity.
  - exists "abc". split; [now left|reflexivity].
Defined.

(** C5 as stated fails: for "abc-1200" the stripping step would give
    1200.0, the code returns absent. *)
Lemma range_failure_does_not_strip :
  contains "-" "abc-1200" = true
  /\ In "abc" (split_on hyphen "abc-1200")
  /\ float_of_string "abc" = None
  /\ strip_and_convert "abc-1200" = Ok (Some (FFin 1200))
  /\ (forall float_repr, parse_price float_repr (CStr "abc-1200") = Ok None).
Proof. repeat split; try reflexivity. now left. Qed.

Lemma missing_query_witness :
  fst (analyze sample_repr sample_ratio sample_row_sum two_city_state
               (Some "   "))
  = Ok (mkResponse (SummaryText "Missing query.") 400).
Proof.
  exact (missing_query_response sample_repr sample_ratio sample_row_sum
           two_city_state (Some "   ") eq_refl).
Defined.

(** C7 as stated fails: without a table the empty query gets the server
    error. *)
Lemma missing_query_without_data :
  is_empty (query_of None) = true
  /\ (forall float_repr ratio row_sum,
        fst (analyze float_repr ratio row_sum empty_state None)
        = Ok (mkResponse (SummaryText "No data available.") 500)).
Proof. split; reflexivity. Qed.

Lemma upload_witness :
  upload_file sample_repr sample_row_sum two_city_state (Some broken_upload)
  = (mkResponse (ErrorBody "Failed to process file.") 500, two_city_state)
  /\ exists st',
       upload_file sample_repr sample_row_sum two_city_state (Some good_upload)
       = (mkResponse (MessageBody "File uploaded successfully.") 200, st')
       /\ cached_df st' = Some sample_table
       /\ memo st' = None
       /\ fst (load_dataframe sample_repr sample_row_sum st') = Some sample_table
       /\ forall area_field,
            fst (analyze sample_repr sample_ratio sample_row_sum st' area_field)
            = analyze_df sample_repr sample_ratio sample_table area_field.
Proof.
  split.
  - apply (proj1 (upload_failure_and_success sample_repr sample_ratio
                    sample_row_sum two_city_state broken_upload eq_refl)
                 ValueError).
    reflexivity.
  - apply (proj2 (upload_failure_and_success sample_repr sample_ratio
                    sample_row_sum two_city_state good_upload eq_refl)
                 sample_table).
    vm_compute. reflexivity.
Defined.


Lemma window_rows_witness :
  exists area,
    location_area two_city_table 0 (Some 1) "pune" = Ok area
    /\ is_max_year 1 (rows_of_location two_city_table 0 "pune") 2021
    /\ (forall r, In r (rows area) <->
                  In r (rows_of_location two_city_table 0 "pune")
                  /\ in_window 1 2021 1 r)
    /\ generate_mock_summary sample_repr area ["rate"; "price_b"] "pune" (Some 1)
       = summary_body sample_repr area ["rate"; "price_b"] "pune" (Some 1).
Proof.
  destruct (window_rows sample_repr two_city_table 0 ["rate"; "price_b"]
              analysis ([], [], []) "pune" 1 1 2021)
    as [area [H1 [H2 [H3 [_ [H5 _]]]]]].
  - reflexivity.
  - reflexivity.
  - reflexivity.
  - exists area. split; [exact H1|]. split; [exact H2|].
    split; [exact H3|exact H5].
Defined.

(** C6 as stated fails for N = 0: "last 0 years" is extracted, yet every
    row of the location is used although none is inside the window. *)
Lemma zero_window_keeps_all_rows :
  extract_last_n "pune last 0 years" = Some 0
  /\ max_year_of 1 (rows_of_location two_city_table 0 "pune") = Some 2021
  /\ location_area two_city_table 0 (extract_last_n "pune last 0 years") "pune"
     = Ok pune_area
  /\ Forall (fun r => ~ in_window 1 2021 0 r) (rows pune_area)
  /\ length (rows pune_area) = 3%nat.
Proof.
  repeat split; try (vm_compute; reflexivity).
  repeat constructor; intros [y [Hy Hlt]]; vm_compute in Hy;
    injection Hy as <-; lia.
Qed.





(** ** The further properties on the sample data *)

Lemma cached_table_witness :
  analyze sample_repr sample_ratio sample_row_sum
          (snd (upload_file sample_repr sample_row_sum empty_state
                            (Some good_upload)))
          (Some "pune")
  = (analyze_df sample_repr sample_ratio sample_table (Some "pune"),
     mkState (Some sample_table) (Some (Some sample_table)) None).
Proof.
  apply (cached_table_is_served sample_repr sample_ratio sample_row_sum
           (snd (upload_file sample_repr sample_row_sum empty_state
                             (Some good_upload)))
           sample_table (Some "pune")).
  - apply reach_upload, reach_start.
  - vm_compute. reflexivity.
Defined.

Lemma analyze_statuses_witness :
  fst (analyze sample_repr sample_ratio sample_row_sum two_city_state
               two_city_query)
  = Ok (mkResponse (Analysis two_city_summaries two_city_chart two_city_rows)
                   200)
  /\ exists sm chart td,
       Analysis two_city_summaries two_city_chart two_city_rows
       = Analysis sm chart td.
Proof.
  assert (H : fst (analyze sample_repr sample_ratio sample_row_sum
                           two_city_state two_city_query)
              = Ok (mkResponse
                      (Analysis two_city_summaries two_city_chart
                                two_city_rows) 200))
    by (vm_compute; reflexivity).
  split; [exact H|].
  destruct (analyze_statuses sample_repr sample_ratio sample_row_sum
              two_city_state two_city_query _ H)
    as [[H5 _]|[[H4 _]|[_ [_ Hc]]]].
  - discriminate H5.
  - discriminate H4.
  - exact Hc.
Defined.

Lemma stripped_price_witness :
  parse_price sample_repr (CStr "Rs 1,200") = Ok (Some (FFin 1200))
  /\ not_below_zero (FFin 1200).
Proof.
  split; [vm_compute; reflexivity|].
  apply (stripped_price_is_not_negative sample_repr "Rs 1,200" (FFin 1200));
    vm_compute; reflexivity.
Defined.


Lemma unchanged_price_witness :
  price_trend_of [FFin 5; FFin 7; FFin 5]
  = Ok "0.0% average change over period".
Proof.
  apply (unchanged_price_reads_zero 5 5 [FFin 7; FFin 5]);
    vm_compute; reflexivity.
Defined.

Lemma found_locations_witness :
  find_locs sample_ratio "pune and mumbai"
            [CStr "pune"; CStr "delhi"; CStr "mumbai"]
  = Ok ["pune"; "mumbai"]
  /\ (In "delhi" ["pune"; "mumbai"]
      <-> In (CStr "delhi") [CStr "pune"; CStr "delhi"; CStr "mumbai"]
          /\ (contains "delhi" "pune and mumbai" = true
              \/ ("delhi" <> EmptyString
                  /\ (default_threshold
                      <= sample_ratio "delhi" "pune and mumbai")%Q))).
Proof.
  assert (H : find_locs sample_ratio "pune and mumbai"
                        [CStr "pune"; CStr "delhi"; CStr "mumbai"]
              = Ok ["pune"; "mumbai"]) by reflexivity.
  split; [exact H|].
  exact (found_locations sample_ratio _ _ _ H "delhi").
Defined.

Lemma fuzzy_match_witness :
  match fuzzy_match_location sample_ratio "pun" ["mumbai"; "pune"] 0 with
  | Some m =>
      In m ["mumbai"; "pune"] /\ (0 <= sample_ratio m "pun")%Q
      /\ forall x, In x ["mumbai"; "pune"] -> (0 <= sample_ratio x "pun")%Q ->
           (sample_ratio x "pun" <= sample_ratio m "pun")%Q
  | None =>
      forall x, In x ["mumbai"; "pune"] -> ~ (0 <= sample_ratio x "pun")%Q
  end.
Proof.
  apply (fuzzy_match_is_best sample_ratio "pun" ["mumbai"; "pune"] 0);
    unfold Qle; simpl; lia.
Defined.

Lemma matching_witness :
  exists found,
    find_locs sample_ratio "pune"
              (unique (dropna (map (cell_at 0) (rows two_city_table))))
    = Ok found.
Proof.
  apply (matching_never_raises sample_ratio two_city_table 0 "pune").
  - exact two_city_table_ok.
  - reflexivity.
Defined.

Lemma summary_per_location_witness :
  Forall2 (fun loc s =>
             location s = title loc
             /\ exists area,
                  location_area two_city_table 0
                                (extract_last_n (query_of two_city_query)) loc
                  = Ok area
                  /\ generate_mock_summary
                       sample_repr area (detect_price_cols two_city_table) loc
                       (extract_last_n (query_of two_city_query))
                     = Ok (mockSummary s))
          ["pune"; "mumbai"] two_city_summaries.
Proof.
  apply (summary_per_location sample_repr sample_ratio two_city_table
           two_city_query two_city_summaries two_city_chart two_city_rows
           0%nat ["pune"; "mumbai"]).
  - exact (two_city_answer sample_repr sample_ratio).
  - reflexivity.
  - reflexivity.
Defined.

Lemma table_rows_witness :
  exists idxs areas,
    mapM (fun c => col_index c two_city_table)
         (table_cols (classify (query_of two_city_query))
                     (detect_price_cols two_city_table))
    = Ok idxs
    /\ Forall2 (fun loc area =>
                  location_area two_city_table 0
                                (extract_last_n (query_of two_city_query)) loc
                  = Ok area)
               ["pune"; "mumbai"] areas
    /\ two_city_rows
       = flat_map (fun area =>
                     map (row_record
                            (table_cols (classify (query_of two_city_query))
                                        (detect_price_cols two_city_table))
                            idxs)
                         (rows area))
                  areas
    /\ length two_city_rows = 5%nat.
Proof.
  destruct (table_rows_per_location sample_repr sample_ratio two_city_table
              two_city_query two_city_summaries two_city_chart two_city_rows
              0%nat ["pune"; "mumbai"]
              (two_city_answer sample_repr sample_ratio) eq_refl eq_refl)
    as [idxs [areas [H1 [H2 [H3 _]]]]].
  exists idxs, areas. repeat split; assumption.
Defined.

Lemma chart_fields_witness :
  ("Pune" = "year" /\ CInt 7 = CInt 2020)
  \/ exists loc,
       In loc ["pune"; "mumbai"]
       /\ (("Pune" = title loc
            /\ wants_demand (classify (query_of two_city_query)) = true
            /\ exists n, CInt 7 = CInt n)
           \/ ("Pune" = title loc ++ "_price"
               /\ wants_price (classify (query_of two_city_query)) = true
               /\ exists f, CInt 7 = CNum (py_round2 f))).
Proof.
  apply (chart_fields_follow_intent sample_repr sample_ratio two_city_table
           two_city_query two_city_summaries two_city_chart two_city_rows
           0%nat 1%nat ["pune"; "mumbai"] two_city_table_ok
           (two_city_answer sample_repr sample_ratio)
           eq_refl eq_refl eq_refl 2020
           [("year", CInt 2020); ("Pune", CInt 7);
            ("Pune_price", CNum (FFin (55 # 2)))]).
  - split; [now left|reflexivity].
  - reflexivity.
Defined.

Lemma window_needs_a_year_witness :
  match location_area two_city_table 0 (Some 1) "pune" with
  | Ok _ =>
      exists r y,
        In r (rows_of_location two_city_table 0 "pune")
        /\ cell_at 1 r = CInt y
  | Raise e =>
      e = TypeError
      /\ forall r, In r (rows_of_location two_city_table 0 "pune") ->
           cell_at 1 r = CNone
  end.
Proof.
  apply (window_needs_a_year two_city_table 0 1 1 "pune").
  - exact two_city_table_ok.
  - reflexivity.
  - lia.
Defined.

Lemma window_length_witness :
  extract_last_n "pune last 2 years" = Some 2
  /\ 0 <= 2 /\ (truthy (Some 2) = true <-> 1 <= 2).
Proof.
  split; [reflexivity|].
  apply (window_length_is_natural "pune last 2 years" 2). reflexivity.
Defined.

Lemma normalize_shape_witness :
  length (rows sample_table) = length (cells sample_sheet)
  /\ columns sample_table
     = (if existsb (String.eqb "demand")
                   (map (normalize_label sample_repr) (labels sample_sheet))
        then map (normalize_label sample_repr) (labels sample_sheet)
        else map (normalize_label sample_repr) (labels sample_sheet)
               ++ ["demand"])%list
  /\ In "demand" (columns sample_table)
  /\ wide sample_table.
Proof.
  apply (normalize_shape sample_repr sample_row_sum sample_sheet sample_table).
  vm_compute. reflexivity.
Defined.

Lemma missing_year_column_witness :
  analyze_df sample_repr sample_ratio yearless_table (Some "pune")
  = Raise KeyError.
Proof.
  apply (missing_year_column_raises sample_repr sample_ratio yearless_table
           (Some "pune") 0 "pune" []); reflexivity.
Defined.

Lemma loaded_table_witness :
  In "demand" (columns sample_table) /\ wide sample_table.
Proof.
  apply (loaded_table_is_shaped sample_repr sample_ratio sample_row_sum
           (snd (upload_file sample_repr sample_row_sum empty_state
                             (Some good_upload)))
           sample_table).
  - apply reach_upload, reach_start.
  - vm_compute. reflexivity.
Defined.

(** ** Evaluations of the helper functions *)

Example float_plain : float_of_string "1200" = Some (FFin 1200).
Proof. reflexivity. Qed.

Example float_spaces : float_of_string "  12.50 " = Some (FFin (25 # 2)).
Proof. reflexivity. Qed.

Example float_exp : float_of_string "-1.5e3" = Some (FFin (-1500)).
Proof. reflexivity. Qed.

Example float_under : float_of_string "1_000" = Some (FFin 1000).
Proof. reflexivity. Qed.

Example float_bad_under : float_of_string "1__0" = None.
Proof. reflexivity. Qed.

Example float_inf : float_of_string "-Infinity" = Some (FInf true).
Proof. reflexivity. Qed.

Example float_empty : float_of_string "" = None.
Proof. reflexivity. Qed.

Example float_word : float_of_string "abc" = None.
Proof. reflexivity. Qed.

Example float_exp_cut : float_of_string "1e" = None.
Proof. reflexivity. Qed.

Example split_range : split_on hyphen "1200-1500" = ["1200"; "1500"].
Proof. reflexivity. Qed.

Example split_lead : split_on hyphen "-5" = [""; "5"].
Proof. reflexivity. Qed.

Example title_two : title "navi mumbai" = "Navi Mumbai".
Proof. reflexivity. Qed.

Example strip_both : strip "  a b  " = "a b".
Proof. reflexivity. Qed.

Example str_int_neg : str_of_int (-12) = "-12".
Proof. reflexivity. Qed.

Example round2_half : py_round2 (FFin (1005 # 1000)) = FFin 1.
Proof. reflexivity. Qed.

Example round2_up : py_round2 (FFin (1015 # 1000)) = FFin (51 # 50).
Proof. reflexivity. Qed.

Example format_pct : format_1f (FFin (1234 # 100)) = "12.3".
Proof. reflexivity. Qed.

Example format_neg : format_1f (FFin (- 5 # 2)) = "-2.5".
Proof. reflexivity. Qed.

Example int_trunc_neg : py_int (FFin (- 5 # 2)) = Ok (-2).
Proof. reflexivity. Qed.

Example window_five : extract_last_n "pune last 5 years" = Some 5.
Proof. reflexivity. Qed.

Example window_tabs : extract_last_n "last  12   yearsago" = Some 12.
Proof. reflexivity. Qed.

Example window_none : extract_last_n "last years" = None.
Proof. reflexivity. Qed.

Example window_zero : extract_last_n "pune last 0 years" = Some 0.
Proof. reflexivity. Qed.

Example classify_compare : classify "compare demand in x and y" = demand_trends.
Proof. reflexivity. Qed.

Example classify_growth : classify "price growth in x" = price_growth.
Proof. reflexivity. Qed.

Example classify_default : classify "tell me about x" = analysis.
Proof. reflexivity. Qed.

Example price_plain : parse_price sample_repr (CStr "1200") = Ok (Some (FFin 1200)).
Proof. reflexivity. Qed.

Example price_range :
  parse_price sample_repr (CStr "1200-1500") = Ok (Some (FFin 1350)).
Proof. reflexivity. Qed.

Example price_currency :
  parse_price sample_repr (CStr "Rs 1,200/sqft") = Ok (Some (FFin 1200)).
Proof. reflexivity. Qed.

Example price_none : parse_price sample_repr CNone = Ok None.
Proof. reflexivity. Qed.

Example price_word : parse_price sample_repr (CStr "abc") = Ok None.
Proof. reflexivity. Qed.

Example price_negative :
  parse_price sample_repr (CStr "-5") = Ok (Some (FFin (-5))).
Proof. reflexivity. Qed.

Example two_city_years :
  map (rec_get "year") two_city_chart
  = [Some (CInt 2020); Some (CInt 2021); Some (CInt 2022)].
Proof. reflexivity. Qed.

Example sample_sheet_normalized :
  normalize sample_repr sample_row_sum sample_sheet = Ok sample_table.
Proof. vm_compute. reflexivity. Qed.
